(** * TraceAnything: a shallow embedding of the shimming engine

    The development follows [src/trace-anything.js].  JavaScript objects live
    in a heap of property lists with descriptors and a prototype link;
    function values are heap objects carrying a defunctionalised closure (one
    constructor per function literal of the source, holding its captured
    variables); the process-wide registries, the clock read by [Date.now()],
    the records handed to [options.logger] and the promise job queue are
    fields of one explicit state.  A call of a function value is interpreted
    with a fuel bound, because getters, setters and methods found in the heap
    may call each other without limit. *)

From Stdlib Require Import ZArith String Ascii List Bool Lia.
From stdpp Require Import base list strings gmap pretty.

Open Scope string_scope.
Open Scope list_scope.

(** ** Values and objects *)

(** Heap locations. *)
Abbreviation loc := nat (only parsing).

(** Built-in function values that the engine relies on but never receives
    from the application as heap objects. *)
Inductive Builtin :=
| BPromiseThen.        (* Promise.prototype.then *)

Inductive Value :=
| VUndefined
| VNull
| VBool (b : bool)
| VNum (n : Z)
| VStr (s : string)
| VObj (l : loc)
| VBuiltin (b : Builtin).

#[global] Instance Builtin_eq_dec : EqDecision Builtin.
Proof. solve_decision. Defined.

#[global] Instance Value_eq_dec : EqDecision Value.
Proof. solve_decision. Defined.

(** The error thrown by the language itself (reading a member of null,
    calling a non-function, the [in] operator on a primitive, a strict-mode
    assignment that cannot be performed). *)
Definition TypeError : Value := VStr "TypeError".

(** Property descriptors, as [Object.getOwnPropertyDescriptor] returns them:
    either a data descriptor (['value' in descriptor]) or an accessor
    descriptor. *)
Inductive Property :=
| PData (value : Value) (writable enumerable configurable : bool)
| PAccessor (get set : Value) (enumerable configurable : bool).

Definition enumerableOf (p : Property) : bool :=
  match p with PData _ _ e _ => e | PAccessor _ _ e _ => e end.

Definition configurableOf (p : Property) : bool :=
  match p with PData _ _ _ c => c | PAccessor _ _ _ c => c end.

Definition withConfigurable (p : Property) : Property :=
  match p with
  | PData v w e _ => PData v w e true
  | PAccessor g s e _ => PAccessor g s e true
  end.

(** ** Options (TraceAnything.Options and TraceAnything.defaultOptions) *)

(** A value of [options.eventProperties]: one member name or a list. *)
Inductive EventProperty :=
| EPName (name : string)
| EPNames (names : list string).

(** [logger] is not a field: the sink is the [logged] trace of the state. *)
Record Options := mkOptions {
  inPlace : bool;
  methods : bool;
  properties : bool;
  treatPromisePropertiesAsEvents : bool;
  extraProperties : list string;
  skipProperties : list string;
  events : bool;
  extraEvents : list string;
  skipEvents : list string;
  eventProperties : list (string * EventProperty);
  exploreResultFields : list string;
  logAsyncResultsImmediately : bool;
  idProperty : option string;
}.

Definition defaultOptions : Options :=
  {| inPlace := true;
     methods := true;
     properties := true;
     treatPromisePropertiesAsEvents := true;
     extraProperties := [];
     skipProperties := [];
     events := true;
     extraEvents := [];
     skipEvents := [];
     eventProperties := [];
     exploreResultFields := [];
     logAsyncResultsImmediately := true;
     idProperty := Some "id" |}.

(** The caller's options object: any subset of the fields. *)
Record PartialOptions := mkPartial {
  p_inPlace : option bool;
  p_methods : option bool;
  p_properties : option bool;
  p_treatPromisePropertiesAsEvents : option bool;
  p_extraProperties : option (list string);
  p_skipProperties : option (list string);
  p_events : option bool;
  p_extraEvents : option (list string);
  p_skipEvents : option (list string);
  p_eventProperties : option (list (string * EventProperty));
  p_exploreResultFields : option (list string);
  p_logAsyncResultsImmediately : option bool;
  p_idProperty : option (option string);
}.

Definition noOptions : PartialOptions :=
  mkPartial None None None None None None None None None None None None None.

(** [Object.assign({}, base, overrides)] on option records. *)
Definition assign (base : Options) (o : PartialOptions) : Options :=
  {| inPlace := default (inPlace base) (p_inPlace o);
     methods := default (methods base) (p_methods o);
     properties := default (properties base) (p_properties o);
     treatPromisePropertiesAsEvents :=
       default (treatPromisePropertiesAsEvents base)
               (p_treatPromisePropertiesAsEvents o);
     extraProperties := default (extraProperties base) (p_extraProperties o);
     skipProperties := default (skipProperties base) (p_skipProperties o);
     events := default (events base) (p_events o);
     extraEvents := default (extraEvents base) (p_extraEvents o);
     skipEvents := default (skipEvents base) (p_skipEvents o);
     eventProperties := default (eventProperties base) (p_eventProperties o);
     exploreResultFields :=
       default (exploreResultFields base) (p_exploreResultFields o);
     logAsyncResultsImmediately :=
       default (logAsyncResultsImmediately base)
               (p_logAsyncResultsImmediately o);
     idProperty := default (idProperty base) (p_idProperty o) |}.

(** A complete options object passed where a caller's object is expected. *)
Definition complete (o : Options) : PartialOptions :=
  {| p_inPlace := Some (inPlace o);
     p_methods := Some (methods o);
     p_properties := Some (properties o);
     p_treatPromisePropertiesAsEvents := Some (treatPromisePropertiesAsEvents o);
     p_extraProperties := Some (extraProperties o);
     p_skipProperties := Some (skipProperties o);
     p_events := Some (events o);
     p_extraEvents := Some (extraEvents o);
     p_skipEvents := Some (skipEvents o);
     p_eventProperties := Some (eventProperties o);
     p_exploreResultFields := Some (exploreResultFields o);
     p_logAsyncResultsImmediately := Some (logAsyncResultsImmediately o);
     p_idProperty := Some (idProperty o) |}.

(** ** Log records (TraceAnything.Log) *)

Inductive LogTypes := Constructor | Method | Getter | Setter | Event | Warning.

(** [log.value] of an Event record is one value, or an object mapping each
    configured member name to its value. *)
Inductive LogValue :=
| LVOne (v : Value)
| LVMap (m : list (string * Value)).

(** A field that is absent from the record object is [None]; a field that is
    present and holds [undefined] is [Some VUndefined]. *)
Module Log.
Record t := mk {
  timestamp : Z;
  duration : option Z;
  type : LogTypes;
  instance : option Value;
  instanceId : option Value;
  message : option string;
  className : option string;
  methodName : option string;
  memberName : option string;
  eventName : option string;
  args : option (list Value);
  threw : option Value;
  result : option Value;
  value : option LogValue;
  event : option Value;
}.

Definition empty (ts : Z) (ty : LogTypes) : t :=
  mk ts None ty None None None None None None None None None None None None.

Definition set_duration (d : Z) (l : t) : t :=
  mk (timestamp l) (Some d) (type l) (instance l) (instanceId l) (message l)
     (className l) (methodName l) (memberName l) (eventName l) (args l)
     (threw l) (result l) (value l) (event l).
Definition set_instance (v : Value) (l : t) : t :=
  mk (timestamp l) (duration l) (type l) (Some v) (instanceId l) (message l)
     (className l) (methodName l) (memberName l) (eventName l) (args l)
     (threw l) (result l) (value l) (event l).
Definition set_instanceId (v : Value) (l : t) : t :=
  mk (timestamp l) (duration l) (type l) (instance l) (Some v) (message l)
     (className l) (methodName l) (memberName l) (eventName l) (args l)
     (threw l) (result l) (value l) (event l).
Definition set_message (s : string) (l : t) : t :=
  mk (timestamp l) (duration l) (type l) (instance l) (instanceId l) (Some s)
     (className l) (methodName l) (memberName l) (eventName l) (args l)
     (threw l) (result l) (value l) (event l).
Definition set_className (s : string) (l : t) : t :=
  mk (timestamp l) (duration l) (type l) (instance l) (instanceId l) (message l)
     (Some s) (methodName l) (memberName l) (eventName l) (args l)
     (threw l) (result l) (value l) (event l).
Definition set_methodName (s : string) (l : t) : t :=
  mk (timestamp l) (duration l) (type l) (instance l) (instanceId l) (message l)
     (className l) (Some s) (memberName l) (eventName l) (args l)
     (threw l) (result l) (value l) (event l).
Definition set_memberName (s : string) (l : t) : t :=
  mk (timestamp l) (duration l) (type l) (instance l) (instanceId l) (message l)
     (className l) (methodName l) (Some s) (eventName l) (args l)
     (threw l) (result l) (value l) (event l).
Definition set_eventName (s : string) (l : t) : t :=
  mk (timestamp l) (duration l) (type l) (instance l) (instanceId l) (message l)
     (className l) (methodName l) (memberName l) (Some s) (args l)
     (threw l) (result l) (value l) (event l).
Definition set_args (a : list Value) (l : t) : t :=
  mk (timestamp l) (duration l) (type l) (instance l) (instanceId l) (message l)
     (className l) (methodName l) (memberName l) (eventName l) (Some a)
     (threw l) (result l) (value l) (event l).
Definition set_threw (e : Value) (l : t) : t :=
  mk (timestamp l) (duration l) (type l) (instance l) (instanceId l) (message l)
     (className l) (methodName l) (memberName l) (eventName l) (args l)
     (Some e) (result l) (value l) (event l).
Definition set_result (v : Value) (l : t) : t :=
  mk (timestamp l) (duration l) (type l) (instance l) (instanceId l) (message l)
     (className l) (methodName l) (memberName l) (eventName l) (args l)
     (threw l) (Some v) (value l) (event l).
(** [delete log.result] *)
Definition delete_result (l : t) : t :=
  mk (timestamp l) (duration l) (type l) (instance l) (instanceId l) (message l)
     (className l) (methodName l) (memberName l) (eventName l) (args l)
     (threw l) None (value l) (event l).
Definition set_value (v : LogValue) (l : t) : t :=
  mk (timestamp l) (duration l) (type l) (instance l) (instanceId l) (message l)
     (className l) (methodName l) (memberName l) (eventName l) (args l)
     (threw l) (result l) (Some v) (event l).
Definition set_event (v : Value) (l : t) : t :=
  mk (timestamp l) (duration l) (type l) (instance l) (instanceId l) (message l)
     (className l) (methodName l) (memberName l) (eventName l) (args l)
     (threw l) (result l) (value l) (Some v).
End Log.

(** ** Closures, objects, the state *)

(** The member found for an event when its listener is wrapped
    ([correspondingPropertyName]). *)
Inductive Corresponding :=
| CorrNull
| CorrName (name : string)
| CorrNames (names : list string).

(** One constructor per function literal of the source, with the variables
    the literal closes over.  [Native] is application or host code. *)
Inductive Closure :=
| Native (id : nat)
| Noop                                            (* () => {} *)
| ReplacementConstructor (ctor : Value) (options : Options)
| MethodShim (originalMethod : Value) (k className : string) (options : Options)
| AsyncFulfilled (log : Log.t) (options : Options) (promiseShim : loc)
| AsyncRejected (log : Log.t) (options : Options) (promiseShim : loc)
| ValueGetter (propertyValue : loc)
| ValueSetter (propertyValue : loc) (traced : Value) (k className : string)
              (options : Options)
| GetterShim (originalGet : Value) (traced : Value) (k className : string)
             (options : Options)
| SetterShim (originalSet : Value) (traced : Value) (k className : string)
             (options : Options)
| PromiseResolved (traced : Value) (k className : string) (options : Options)
| PromiseRejected (traced : Value) (k className : string) (options : Options)
| ListenerGetter (originalGet : Value)
| ListenerSetter (originalSet : Value) (object : Value)
                 (className eventName : string) (options : Options)
| DynamicAddEventListener (originalMethod : Value) (traced : Value)
                          (className : string) (options : Options)
| ListenerShim (traced listener : Value) (className eventName : string)
               (options : Options) (correspondingPropertyName : Corresponding)
| ResolveFunction (promise : loc)
| RejectFunction (promise : loc).

(** A reaction registered by [then]: both handlers and the derived promise. *)
Record Reaction := mkReaction {
  onFulfilled : Value;
  onRejected : Value;
  derived : loc;
}.

Inductive PromiseState :=
| Pending (reactions : list Reaction)
| Fulfilled (v : Value)
| Rejected (e : Value).

Inductive Kind :=
| KPlain
| KFunction (c : Closure)
| KSet (elements : list Value)           (* new Set() *)
| KPromise (s : PromiseState)            (* new Promise(...) *)
| KVariable (v : Value).                 (* a captured [let] variable *)

(** Own properties are kept in enumeration order. *)
Record Obj := mkObj {
  proto : option loc;
  props : list (string * Property);
  kind : Kind;
}.

(** Promise jobs waiting for the running code to finish. *)
Inductive Job :=
| ReactionJob (handler argument : Value) (derivedPromise : loc) (rejection : bool)
| ThenableJob (promise : loc) (thenable thenFunction : Value).

Record State := mkState {
  heap : list Obj;
  _shimmedClasses : list (Value * Options);      (* Map keyed by constructor *)
  _nextGeneratedId : gmap string nat;
  clock : Z;                                     (* Date.now() *)
  logged : list Log.t;                           (* what the logger received *)
  jobs : list Job;
}.

Definition emptyState : State := mkState [] [] ∅ 0 [] [].

Definition withHeap (h : list Obj) (st : State) : State :=
  mkState h (_shimmedClasses st) (_nextGeneratedId st) (clock st) (logged st)
          (jobs st).
Definition withClasses (c : list (Value * Options)) (st : State) : State :=
  mkState (heap st) c (_nextGeneratedId st) (clock st) (logged st) (jobs st).
Definition withIds (m : gmap string nat) (st : State) : State :=
  mkState (heap st) (_shimmedClasses st) m (clock st) (logged st) (jobs st).
Definition withLogged (l : list Log.t) (st : State) : State :=
  mkState (heap st) (_shimmedClasses st) (_nextGeneratedId st) (clock st) l
          (jobs st).
Definition withJobs (j : list Job) (st : State) : State :=
  mkState (heap st) (_shimmedClasses st) (_nextGeneratedId st) (clock st)
          (logged st) j.

(** ** The monad of JavaScript code: state, exceptions, fuel *)

Inductive Outcome (A : Type) :=
| Ret (a : A)
| Throw (e : Value)
| OutOfFuel.
Arguments Ret {A} a.
Arguments Throw {A} e.
Arguments OutOfFuel {A}.

Definition M (A : Type) : Type := State -> Outcome A * State.

Definition ret {A} (a : A) : M A := fun st => (Ret a, st).
Definition throw {A} (e : Value) : M A := fun st => (Throw e, st).
Definition outOfFuel {A} : M A := fun st => (OutOfFuel, st).

Definition bind {A B} (m : M A) (k : A -> M B) : M B :=
  fun st =>
    match m st with
    | (Ret a, st') => k a st'
    | (Throw e, st') => (Throw e, st')
    | (OutOfFuel, st') => (OutOfFuel, st')
    end.

Notation "'do' x <- m ; k" := (bind m (fun x => k))
  (at level 10, x name, m at level 100, k at level 200,
   format "'[v' 'do'  x  <-  m ; '/' k ']'").
Notation "'run' m ; k" := (bind m (fun _ => k))
  (at level 10, m at level 100, k at level 200,
   format "'[v' 'run'  m ; '/' k ']'").

(** [try { m } catch (error) { h error }] *)
Definition tryCatch {A} (m : M A) (h : Value -> M A) : M A :=
  fun st =>
    match m st with
    | (Throw e, st') => h e st'
    | r => r
    end.

(** [for (const x of xs) { body x }] *)
Fixpoint forEach {A} (xs : list A) (body : A -> M unit) : M unit :=
  match xs with
  | [] => ret tt
  | x :: rest => run body x; forEach rest body
  end.

Definition getState : M State := fun st => (Ret st, st).
Definition now : M Z := fun st => (Ret (clock st), st).

(** [options.logger(log)]: the sink receives the record as it is now. *)
Definition logger (l : Log.t) : M unit :=
  fun st => (Ret tt, withLogged (logged st ++ [l]) st).

(** ** Strings *)

Definition lowerAscii (c : ascii) : ascii :=
  let n := nat_of_ascii c in
  if (65 <=? n)%nat && (n <=? 90)%nat then ascii_of_nat (n + 32) else c.

(** [s.toLowerCase()], on the ASCII letters. *)
Fixpoint toLowerCase (s : string) : string :=
  match s with
  | EmptyString => EmptyString
  | String c rest => String (lowerAscii c) (toLowerCase rest)
  end.

Definition startsWith (pre s : string) : bool := String.prefix pre s.

Definition endsWith (suf s : string) : bool :=
  (String.length suf <=? String.length s)%nat
  && String.eqb (substring (String.length s - String.length suf)
                           (String.length suf) s) suf.

(** [k.replace(/^on/, '')] *)
Definition stripOn (k : string) : string :=
  if startsWith "on" k then substring 2 (String.length k - 2) k else k.

(** [name.replace(/change$/, '')] *)
Definition stripChange (name : string) : string :=
  if endsWith "change" name
  then substring 0 (String.length name - 6) name
  else name.

(** [xs.includes(x)] *)
Definition includes (xs : list string) (x : string) : bool :=
  existsb (String.eqb x) xs.

(** The keys [for (const i in array)] visits: the indices, as strings. *)
Definition arrayKeys {A} (xs : list A) : list string :=
  map (fun i : nat => pretty i) (seq 0 (length xs)).

(** ** Values *)

Definition truthy (v : Value) : bool :=
  match v with
  | VUndefined | VNull => false
  | VBool b => b
  | VNum n => negb (n =? 0)%Z
  | VStr s => negb (String.eqb s "")
  | VObj _ | VBuiltin _ => true
  end.

(** [v == null] *)
Definition isNullish (v : Value) : bool :=
  match v with VUndefined | VNull => true | _ => false end.

Definition valueEqb (a b : Value) : bool := bool_decide (a = b).

(** The string a value contributes to a concatenation; members named [name]
    hold strings, the other cases follow ToString. *)
Definition toString (v : Value) : string :=
  match v with
  | VStr s => s
  | VUndefined => "undefined"
  | VNull => "null"
  | VBool true => "true"
  | VBool false => "false"
  | VNum n => pretty n
  | VObj _ => "[object Object]"
  | VBuiltin _ => "function () { [native code] }"
  end.

(** ** Property lists *)

Fixpoint ownProperty (ps : list (string * Property)) (k : string)
  : option Property :=
  match ps with
  | [] => None
  | (k', p) :: rest => if String.eqb k' k then Some p else ownProperty rest k
  end.

(** Replace the property in place, or append it: a redefined member keeps
    its position in the enumeration order. *)
Fixpoint putProperty (ps : list (string * Property)) (k : string) (p : Property)
  : list (string * Property) :=
  match ps with
  | [] => [(k, p)]
  | (k', p') :: rest =>
      if String.eqb k' k then (k, p) :: rest
      else (k', p') :: putProperty rest k p
  end.

Definition objPut (o : Obj) (k : string) (p : Property) : Obj :=
  mkObj (proto o) (putProperty (props o) k p) (kind o).

Definition objWithProto (o : Obj) (p : option loc) : Obj :=
  mkObj p (props o) (kind o).

Definition objWithKind (o : Obj) (kd : Kind) : Obj :=
  mkObj (proto o) (props o) kd.

(** Walk the prototype chain from [l] looking for [k].  A chain without
    cycles has at most as many links as the heap has objects. *)
Fixpoint lookupChain (n : nat) (h : list Obj) (l : loc) (k : string)
  : option Property :=
  match n with
  | O => None
  | S n' =>
      match h !! l with
      | None => None
      | Some o =>
          match ownProperty (props o) k with
          | Some p => Some p
          | None =>
              match proto o with
              | Some l' => lookupChain n' h l' k
              | None => None
              end
          end
      end
  end.

Definition findProperty (st : State) (v : Value) (k : string)
  : option Property :=
  match v with
  | VObj l => lookupChain (S (length (heap st))) (heap st) l k
  | _ => None
  end.

(** The names [for (const k in object)] visits: enumerable members, own
    ones first, then along the prototype chain, a name shadowed nearer the
    object being skipped. *)
Fixpoint forInChain (n : nat) (h : list Obj) (l : loc) (seen : list string)
  : list string :=
  match n with
  | O => []
  | S n' =>
      match h !! l with
      | None => []
      | Some o =>
          let own :=
            map fst (List.filter
                       (fun kp => enumerableOf (snd kp)
                                  && negb (includes seen (fst kp)))
                       (props o)) in
          own ++ match proto o with
                 | Some l' => forInChain n' h l' (seen ++ map fst (props o))
                 | None => []
                 end
      end
  end.

Definition forInKeys (v : Value) : M (list string) :=
  fun st =>
    match v with
    | VObj l => (Ret (forInChain (S (length (heap st))) (heap st) l []), st)
    | _ => (Ret [], st)
    end.

(** ** Heap primitives *)

Definition alloc (o : Obj) : M loc :=
  fun st => (Ret (length (heap st)), withHeap (heap st ++ [o]) st).

Definition allocFunction (c : Closure) : M Value :=
  do l <- alloc (mkObj None [] (KFunction c)); ret (VObj l).

(** [{}] and object literals *)
Definition allocObject (ps : list (string * Property)) : M Value :=
  do l <- alloc (mkObj None ps KPlain); ret (VObj l).

Definition modifyObj (l : loc) (f : Obj -> Obj) : M unit :=
  fun st =>
    match heap st !! l with
    | Some o => (Ret tt, withHeap (<[l := f o]> (heap st)) st)
    | None => (Ret tt, st)
    end.

Definition kindOf (st : State) (v : Value) : option Kind :=
  match v with
  | VObj l => kind <$> heap st !! l
  | _ => None
  end.

Definition closureOf (st : State) (v : Value) : option Closure :=
  match kindOf st v with
  | Some (KFunction c) => Some c
  | _ => None
  end.

(** [typeof v == 'function'], [v instanceof Function] *)
Definition isFunctionIn (st : State) (v : Value) : bool :=
  match v with
  | VBuiltin _ => true
  | _ => match closureOf st v with Some _ => true | None => false end
  end.

Definition isFunction (v : Value) : M bool :=
  fun st => (Ret (isFunctionIn st v), st).

(** [k in v]: a TypeError unless [v] is an object. *)
Definition hasProperty (v : Value) (k : string) : M bool :=
  fun st =>
    match v with
    | VObj _ => (Ret (bool_decide (is_Some (findProperty st v k))), st)
    | VBuiltin _ => (Ret false, st)
    | _ => (Throw TypeError, st)
    end.

(** [Object.getPrototypeOf(v)]; the prototypes of primitives and built-ins
    are outside the heap. *)
Definition getPrototypeOf (v : Value) : M (option Value) :=
  fun st =>
    match v with
    | VObj l =>
        match heap st !! l with
        | Some o => (Ret (Some (from_option VObj VNull (proto o))), st)
        | None => (Ret (Some VNull), st)
        end
    | VUndefined | VNull => (Throw TypeError, st)
    | _ => (Ret None, st)
    end.

(** [Object.setPrototypeOf(o, p)] *)
Definition setPrototypeOf (o p : Value) : M unit :=
  match o, p with
  | VObj l, VObj lp => modifyObj l (fun ob => objWithProto ob (Some lp))
  | VObj l, VNull => modifyObj l (fun ob => objWithProto ob None)
  | _, _ => throw TypeError
  end.

(** [Object.defineProperty(o, k, p)] for the descriptors the engine builds,
    all of which are configurable: refused on an own member that is not
    configurable. *)
Definition defineProperty (o : Value) (k : string) (p : Property) : M unit :=
  fun st =>
    match o with
    | VObj l =>
        match heap st !! l with
        | Some ob =>
            match ownProperty (props ob) k with
            | Some old =>
                if configurableOf old
                then modifyObj l (fun ob => objPut ob k p) st
                else (Throw TypeError, st)
            | None => modifyObj l (fun ob => objPut ob k p) st
            end
        | None => (Throw TypeError, st)
        end
    | _ => (Throw TypeError, st)
    end.

(** ** Sets ([traced.__TraceAnythingEvents__]) *)

Definition setElements (set : Value) : M (list Value) :=
  fun st =>
    match kindOf st set with
    | Some (KSet es) => (Ret es, st)
    | _ => (Throw TypeError, st)
    end.

(** [set.has(x)] *)
Definition setHas (set x : Value) : M bool :=
  do es <- setElements set;
  ret (existsb (valueEqb x) es).

(** [set.add(x)] *)
Definition setAdd (set x : Value) : M unit :=
  do es <- setElements set;
  if existsb (valueEqb x) es then ret tt
  else match set with
       | VObj l => modifyObj l (fun ob => objWithKind ob (KSet (es ++ [x])))
       | _ => ret tt
       end.

(** ** Maps ([_shimmedClasses], [_nextGeneratedId]) *)

Fixpoint classOptions (cs : list (Value * Options)) (ctor : Value)
  : option Options :=
  match cs with
  | [] => None
  | (c, o) :: rest => if valueEqb c ctor then Some o else classOptions rest ctor
  end.

Fixpoint putClass (cs : list (Value * Options)) (ctor : Value) (o : Options)
  : list (Value * Options) :=
  match cs with
  | [] => [(ctor, o)]
  | (c, o') :: rest =>
      if valueEqb c ctor then (c, o) :: rest else (c, o') :: putClass rest ctor o
  end.

(** [TraceAnything._nextGeneratedId.get(className) || 1] *)
Definition nextId (st : State) (className : string) : nat :=
  match _nextGeneratedId st !! className with
  | Some (S n) => S n
  | _ => 1
  end.

(** ** Calls, member access, promises *)

(** What the interpreter hands to code that calls back into it: how to call
    a function value, and [_shimReturnValue] (which is recursive through the
    fields it explores). *)
Record Handlers := mkHandlers {
  callOf : Value -> Value -> list Value -> M Value;
  shimReturnValueOf : Value -> Options -> M Value;
}.

(** [v[k]]: a data member yields its value, an accessor runs its getter on
    the receiver.  Promises inherit [then] from [Promise.prototype]. *)
Definition getMember (r : Handlers) (v : Value) (k : string) : M Value :=
  fun st =>
    match v with
    | VUndefined | VNull => (Throw TypeError, st)
    | VObj _ =>
        match findProperty st v k with
        | Some (PData x _ _ _) => (Ret x, st)
        | Some (PAccessor VUndefined _ _ _) => (Ret VUndefined, st)
        | Some (PAccessor g _ _ _) => callOf r g v [] st
        | None =>
            match kindOf st v with
            | Some (KPromise _) =>
                if String.eqb k "then" then (Ret (VBuiltin BPromiseThen), st)
                else (Ret VUndefined, st)
            | _ => (Ret VUndefined, st)
            end
        end
    | _ => (Ret VUndefined, st)
    end.

(** [v[k] = x] in strict code (class bodies are strict): an accessor runs
    its setter on the receiver, a writable data member is updated on the
    receiver itself, anything else is a TypeError. *)
Definition setMember (r : Handlers) (v : Value) (k : string) (x : Value)
  : M unit :=
  fun st =>
    match v with
    | VObj l =>
        match heap st !! l with
        | None => (Throw TypeError, st)
        | Some o =>
            match findProperty st v k with
            | Some (PAccessor _ VUndefined _ _) => (Throw TypeError, st)
            | Some (PAccessor _ s _ _) =>
                (run callOf r s v [x]; ret tt) st
            | Some (PData _ false _ _) => (Throw TypeError, st)
            | Some (PData _ true _ _) =>
                match ownProperty (props o) k with
                | Some (PData _ _ e c) =>
                    modifyObj l (fun ob => objPut ob k (PData x true e c)) st
                | _ =>
                    modifyObj l (fun ob => objPut ob k (PData x true true true)) st
                end
            | None =>
                modifyObj l (fun ob => objPut ob k (PData x true true true)) st
            end
        end
    | VBuiltin _ => (Ret tt, st)
    | _ => (Throw TypeError, st)
    end.

(** [new ctor(...args)] *)
Definition construct (r : Handlers) (ctor : Value) (args : list Value)
  : M Value :=
  do callable <- isFunction ctor;
  if negb callable then throw TypeError
  else
    do prototype <- getMember r ctor "prototype";
    do l <- alloc (mkObj (match prototype with VObj p => Some p | _ => None end)
                         [] KPlain);
    do returned <- callOf r ctor (VObj l) args;
    ret (match returned with VObj _ => returned | _ => VObj l end).

Definition promiseState (st : State) (p : loc) : option PromiseState :=
  match kindOf st (VObj p) with
  | Some (KPromise s) => Some s
  | _ => None
  end.

Definition enqueue (js : list Job) : M unit :=
  fun st => (Ret tt, withJobs (jobs st ++ js) st).

(** [new Promise(...)] before its executor runs. *)
Definition allocPromise : M loc :=
  alloc (mkObj None [] (KPromise (Pending []))).

(** Settling a pending promise schedules each of its reactions once; a
    promise that is already settled stays as it is. *)
Definition settle (p : loc) (s : PromiseState) (job : Reaction -> Job)
  : M unit :=
  fun st =>
    match promiseState st p with
    | Some (Pending rs) =>
        (run modifyObj p (fun ob => objWithKind ob (KPromise s));
         enqueue (map job rs)) st
    | _ => (Ret tt, st)
    end.

Definition fulfillPromise (p : loc) (v : Value) : M unit :=
  settle p (Fulfilled v)
         (fun rc => ReactionJob (onFulfilled rc) v (derived rc) false).

Definition rejectPromise (p : loc) (e : Value) : M unit :=
  settle p (Rejected e)
         (fun rc => ReactionJob (onRejected rc) e (derived rc) true).

(** The [resolve] function of a promise: a thenable is followed by a job,
    any other value fulfils the promise. *)
Definition resolvePromise (r : Handlers) (p : loc) (v : Value) : M unit :=
  fun st =>
    match promiseState st p with
    | Some (Pending _) =>
        match v with
        | VObj _ =>
            tryCatch
              (do thenFunction <- getMember r v "then";
               do callable <- isFunction thenFunction;
               if callable then enqueue [ThenableJob p v thenFunction]
               else fulfillPromise p v)
              (fun e => rejectPromise p e) st
        | _ => fulfillPromise p v st
        end
    | _ => (Ret tt, st)
    end.

(** [promise.then(onFulfilled, onRejected)] *)
Definition promiseThen (this : Value) (args : list Value) : M Value :=
  let onF := nth 0 args VUndefined in
  let onR := nth 1 args VUndefined in
  fun st =>
    match this with
    | VObj p =>
        match promiseState st p with
        | Some s =>
            (do d <- allocPromise;
             run match s with
                 | Pending rs =>
                     modifyObj p (fun ob =>
                       objWithKind ob
                         (KPromise (Pending (rs ++ [mkReaction onF onR d]))))
                 | Fulfilled v => enqueue [ReactionJob onF v d false]
                 | Rejected e => enqueue [ReactionJob onR e d true]
                 end;
             ret (VObj d)) st
        | None => (Throw TypeError, st)
        end
    | _ => (Throw TypeError, st)
    end.

(** One promise job. *)
Definition runJob (r : Handlers) (j : Job) : M unit :=
  match j with
  | ReactionJob handler argument d rejection =>
      do callable <- isFunction handler;
      if callable then
        tryCatch
          (do x <- callOf r handler VUndefined [argument];
           resolvePromise r d x)
          (fun e => rejectPromise d e)
      else if rejection then rejectPromise d argument
      else fulfillPromise d argument
  | ThenableJob p thenable thenFunction =>
      do resolve <- allocFunction (ResolveFunction p);
      do reject <- allocFunction (RejectFunction p);
      tryCatch
        (run callOf r thenFunction thenable [resolve; reject]; ret tt)
        (fun e => rejectPromise p e)
  end.

(** ** The engine (class TraceAnything) *)

Definition setNextId (className : string) (n : nat) : M unit :=
  fun st => (Ret tt, withIds (<[className := n]> (_nextGeneratedId st)) st).

(** [static _getId(traced, className, options)] *)
Definition _getId (r : Handlers) (traced : Value) (className : string)
                  (options : Options) : M Value :=
  do useIdProperty <-
    match idProperty options with
    | Some p => if truthy (VStr p) then hasProperty traced p else ret false
    | None => ret false
    end;
  if useIdProperty
  then getMember r traced (default "" (idProperty options))
  else
    do current <- getMember r traced "__TraceAnythingId__";
    run (if isNullish current then
           do st <- getState;
           let id := nextId st className in
           run setNextId className (id + 1);
           setMember r traced "__TraceAnythingId__"
                     (VStr (className +:+ "_" +:+ pretty id))
         else ret tt);
    getMember r traced "__TraceAnythingId__".

(** [static _getDescriptor(object, k)]: the first descriptor found walking
    the prototype chain, or null. *)
Definition _getDescriptor (object : Value) (k : string) : M (option Property) :=
  fun st => (Ret (findProperty st object k), st).

(** [static _extractProperty(object, name)] *)
Definition _extractProperty (r : Handlers) (object : Value) (name : string)
  : M Value :=
  do value <- getMember r object name;
  do callable <- isFunction value;
  if callable then callOf r value object [] else ret value.

Definition eventPropertyOf (options : Options) (eventName : string)
  : option EventProperty :=
  snd <$> List.find (fun e => String.eqb (fst e) eventName)
                    (eventProperties options).

(** [static _shimEventListener(traced, listener, className, eventName,
    options)]: the corresponding member is looked for now, the returned
    function reads it when the event fires. *)
Definition _shimEventListener (r : Handlers) (traced listener : Value)
    (className eventName : string) (options : Options) : M Value :=
  do correspondingPropertyName <-
    match eventPropertyOf options eventName with
    | Some (EPName name) => ret (CorrName name)
    | Some (EPNames names) => ret (CorrNames names)
    | None =>
        let canonicalEventName := toLowerCase eventName in
        let lowerCasePropertyName := stripChange canonicalEventName in
        do keys <- forInKeys traced;
        ret match List.find (fun k => String.eqb (toLowerCase k)
                                                 lowerCasePropertyName) keys with
            | Some k => CorrName k
            | None => CorrNull
            end
    end;
  allocFunction (ListenerShim traced listener className eventName options
                              correspondingPropertyName).

Fixpoint putValue (m : list (string * Value)) (k : string) (v : Value)
  : list (string * Value) :=
  match m with
  | [] => [(k, v)]
  | (k', v') :: rest =>
      if String.eqb k' k then (k, v) :: rest else (k', v') :: putValue rest k v
  end.

Fixpoint extractAll (r : Handlers) (traced : Value) (names : list string)
                    (acc : list (string * Value)) : M (list (string * Value)) :=
  match names with
  | [] => ret acc
  | name :: rest =>
      do v <- _extractProperty r traced name;
      extractAll r traced rest (putValue acc name v)
  end.

(** The end of the listener shim: [listener] is a function or an object
    with a [handleEvent] member. *)
Definition forwardEvent (r : Handlers) (listener this event : Value) : M Value :=
  do handleEvent <- getMember r listener "handleEvent";
  if truthy handleEvent then
    do handleEvent <- getMember r listener "handleEvent";
    callOf r handleEvent this [event]
  else callOf r listener this [event].

(** The function [_shimEventListener] returns, called with [event]. *)
Definition listenerShim (r : Handlers) (traced listener : Value)
    (className eventName : string) (options : Options)
    (correspondingPropertyName : Corresponding)
    (this : Value) (args : list Value) : M Value :=
  let event := nth 0 args VUndefined in
  do ts <- now;
  do id <- _getId r traced className options;
  let log :=
    Log.set_event event (Log.set_eventName eventName
      (Log.set_className className (Log.set_instanceId id
        (Log.set_instance traced (Log.set_duration 0 (Log.empty ts Event)))))) in
  do log <-
    match correspondingPropertyName with
    | CorrNames names =>
        do m <- extractAll r traced names [];
        ret (Log.set_value (LVMap m) log)
    | CorrName name =>
        if truthy (VStr name) then
          do v <- _extractProperty r traced name;
          ret (Log.set_value (LVOne v) log)
        else ret log
    | CorrNull => ret log
    end;
  run logger log;
  forwardEvent r listener this event.

(** [static _shimEventListenerProperty(traced, object, k, className,
    options)] *)
Definition _shimEventListenerProperty (r : Handlers) (traced object : Value)
    (k className : string) (options : Options) : M unit :=
  let eventName := stripOn k in
  if includes (skipEvents options) eventName then ret tt
  else
    do eventSet <- getMember r traced "__TraceAnythingEvents__";
    run setAdd eventSet (VStr eventName);
    do originalDescriptor <- _getDescriptor object k;
    match originalDescriptor with
    | None => throw TypeError         (* originalDescriptor.get on null *)
    | Some d =>
        let originalGet :=
          match d with PAccessor g _ _ _ => g | PData _ _ _ _ => VUndefined end in
        let originalSet :=
          match d with PAccessor _ s _ _ => s | PData _ _ _ _ => VUndefined end in
        do oldListener <- getMember r object k;
        do getter <- allocFunction (ListenerGetter originalGet);
        do setter <- allocFunction
                       (ListenerSetter originalSet object className eventName
                                       options);
        run defineProperty traced k (PAccessor getter setter true true);
        setMember r traced k oldListener
    end.

(** The getter and the setter that [_shimEventListenerProperty] installs. *)
Definition listenerGetter (r : Handlers) (originalGet : Value)
    (this : Value) (args : list Value) : M Value :=
  callOf r originalGet this [].

Definition listenerSetter (r : Handlers) (originalSet object : Value)
    (className eventName : string) (options : Options)
    (this : Value) (args : list Value) : M Value :=
  let listener := nth 0 args VUndefined in
  do listener <- (if truthy listener then ret listener
                  else allocFunction Noop);
  do shim <- _shimEventListener r object listener className eventName options;
  run callOf r originalSet this [shim];
  ret VUndefined.

Definition includesValue (xs : list string) (v : Value) : bool :=
  match v with VStr s => includes xs s | _ => false end.

(** The function [_shimEventListenersDynamically] installs as
    [traced.addEventListener], called with [(eventName, ...args)]. *)
Definition dynamicAddEventListener (r : Handlers) (originalMethod traced : Value)
    (className : string) (options : Options)
    (this : Value) (allArgs : list Value) : M Value :=
  let eventName := nth 0 allArgs VUndefined in
  let args := tl allArgs in
  do eventSet <- getMember r traced "__TraceAnythingEvents__";
  do known <- setHas eventSet eventName;
  run (if negb known && negb (includesValue (skipEvents options) eventName)
       then
         do eventSet <- getMember r traced "__TraceAnythingEvents__";
         run setAdd eventSet eventName;
         do noop <- allocFunction Noop;
         do listener <-
           match eventName with
           | VStr name => _shimEventListener r traced noop className name options
           | _ => throw TypeError      (* eventName.toLowerCase() *)
           end;
         run callOf r originalMethod this [eventName; listener];
         ret tt
       else ret tt);
  callOf r originalMethod this (eventName :: args).

(** [static _shimEventListenersDynamically(traced, object, className,
    options)] *)
Definition _shimEventListenersDynamically (r : Handlers) (traced object : Value)
    (className : string) (options : Options) : M unit :=
  do originalMethod <- getMember r object "addEventListener";
  do shim <- allocFunction
               (DynamicAddEventListener originalMethod traced className options);
  setMember r traced "addEventListener" shim.

(** [static _shimPropertySilent(traced, object, k, options)] *)
Definition _shimPropertySilent (traced object : Value) (k : string)
    (options : Options) : M unit :=
  if inPlace options then ret tt
  else
    do originalDescriptor <- _getDescriptor object k;
    let newDescriptor :=
      match originalDescriptor with
      | Some d => withConfigurable d
      | None => PData VUndefined false false true    (* {configurable: true} *)
      end in
    defineProperty traced k newDescriptor.

Definition memberLog (ts : Z) (ty : LogTypes) (traced id : Value)
    (className k : string) : Log.t :=
  Log.set_memberName k (Log.set_className className
    (Log.set_instanceId id (Log.set_instance traced (Log.empty ts ty)))).

(** The accessors [_shimProperty] installs over a plain stored value: the
    value lives in the captured variable [propertyValue]. *)
Definition valueGetter (propertyValue : loc) : M Value :=
  fun st =>
    match kindOf st (VObj propertyValue) with
    | Some (KVariable v) => (Ret v, st)
    | _ => (Ret VUndefined, st)
    end.

Definition valueSetter (r : Handlers) (propertyValue : loc) (traced : Value)
    (k className : string) (options : Options) (args : list Value) : M Value :=
  let value := nth 0 args VUndefined in
  do ts <- now;
  do id <- _getId r traced className options;
  run logger (Log.set_value (LVOne value)
                (Log.set_duration 0 (memberLog ts Setter traced id className k)));
  run modifyObj propertyValue (fun ob => objWithKind ob (KVariable value));
  ret VUndefined.

(** The accessors [_shimProperty] installs over native accessors. *)
Definition getterShim (r : Handlers) (originalGet traced : Value)
    (k className : string) (options : Options) (this : Value) : M Value :=
  do ts <- now;
  do id <- _getId r traced className options;
  let log := memberLog ts Getter traced id className k in
  tryCatch
    (do value <- callOf r originalGet this [];
     do t <- now;
     run logger (Log.set_duration (t - ts) (Log.set_result value log));
     ret value)
    (fun error =>
       do t <- now;
       run logger (Log.set_duration (t - ts) (Log.set_threw error log));
       throw error).

Definition setterShim (r : Handlers) (originalSet traced : Value)
    (k className : string) (options : Options)
    (this : Value) (args : list Value) : M Value :=
  let value := nth 0 args VUndefined in
  do ts <- now;
  do id <- _getId r traced className options;
  let log := memberLog ts Setter traced id className k in
  tryCatch
    (run callOf r originalSet this [value];
     do t <- now;
     run logger (Log.set_duration (t - ts) (Log.set_value (LVOne value) log));
     ret VUndefined)
    (fun error =>
       do t <- now;
       run logger (Log.set_duration (t - ts) (Log.set_threw error log));
       throw error).

(** [static _shimProperty(traced, object, k, className, options)] *)
Definition _shimProperty (r : Handlers) (traced object : Value)
    (k className : string) (options : Options) : M unit :=
  do originalDescriptor <- _getDescriptor object k;
  match originalDescriptor with
  | None => throw TypeError           (* originalDescriptor.configurable on null *)
  | Some d =>
      if inPlace options && negb (configurableOf d) then
        do ts <- now;
        logger (Log.set_message
                  ("Unable to trace " +:+ k +:+ " on " +:+ className
                   +:+ " in-place!")
                  (Log.set_duration 0 (Log.empty ts Warning)))
      else
        match d with
        | PData v writable enumerable _ =>
            do propertyValue <- alloc (mkObj None [] (KVariable v));
            do getter <- allocFunction (ValueGetter propertyValue);
            do setter <-
              (if writable
               then allocFunction
                      (ValueSetter propertyValue traced k className options)
               else ret VUndefined);
            defineProperty traced k (PAccessor getter setter enumerable true)
        | PAccessor originalGet originalSet enumerable _ =>
            do getter <-
              (if truthy originalGet
               then allocFunction
                      (GetterShim originalGet traced k className options)
               else ret VUndefined);
            do setter <-
              (if truthy originalSet
               then allocFunction
                      (SetterShim originalSet traced k className options)
               else ret VUndefined);
            defineProperty traced k (PAccessor getter setter enumerable true)
        end
  end.

(** The settlement observers [_shimPromiseProperty] attaches. *)
Definition promiseEvent (r : Handlers) (traced : Value) (k className : string)
    (options : Options) (suffix field : string) (args : list Value) : M Value :=
  let settled := nth 0 args VUndefined in
  do ts <- now;
  do id <- _getId r traced className options;
  do event <- allocObject [(field, PData settled true true true)];
  run logger (Log.set_event event
                (Log.set_eventName (k +:+ suffix)
                   (Log.set_className className
                      (Log.set_instanceId id
                         (Log.set_instance traced
                            (Log.set_duration 0 (Log.empty ts Event)))))));
  ret VUndefined.

(** [static _shimPromiseProperty(traced, object, k, className, options)] *)
Definition _shimPromiseProperty (r : Handlers) (traced object : Value)
    (k className : string) (options : Options) : M unit :=
  do promise <- getMember r object k;
  do thenFunction <- getMember r promise "then";
  do resolved <- allocFunction (PromiseResolved traced k className options);
  do rejected <- allocFunction (PromiseRejected traced k className options);
  run callOf r thenFunction promise [resolved; rejected];
  ret tt.

(** The function [_shimMethod] installs as [traced[k]], called on [this]
    with [args]. *)
Definition methodShim (r : Handlers) (originalMethod : Value)
    (k className : string) (options : Options)
    (this : Value) (args : list Value) : M Value :=
  do ts <- now;
  do id <- _getId r this className options;
  let log :=
    Log.set_args args (Log.set_methodName k (Log.set_className className
      (Log.set_instanceId id (Log.set_instance this (Log.empty ts Method))))) in
  tryCatch
    (do returnValue <- callOf r originalMethod this args;
     do t <- now;
     let log := Log.set_duration (t - ts) (Log.set_result returnValue log) in
     if isNullish returnValue then
       run logger log;
       ret returnValue
     else
       do thenMember <- getMember r returnValue "then";
       if truthy thenMember then
         run (if logAsyncResultsImmediately options then logger log else ret tt);
         (* new Promise((resolve, reject) => { returnValue.then(..., ...) }) *)
         do promiseShim <- allocPromise;
         run tryCatch
               (do thenFunction <- getMember r returnValue "then";
                do fulfilled <- allocFunction
                                  (AsyncFulfilled log options promiseShim);
                do rejected <- allocFunction
                                 (AsyncRejected log options promiseShim);
                run callOf r thenFunction returnValue [fulfilled; rejected];
                ret tt)
               (fun e => rejectPromise promiseShim e);
         ret (VObj promiseShim)
       else
         run logger log;
         shimReturnValueOf r returnValue options)
    (fun error =>
       do t <- now;
       run logger (Log.set_duration (t - ts)
                     (Log.set_threw error (Log.delete_result log)));
       throw error).

(** The continuations the method shim hands to [returnValue.then]. *)
Definition asyncFulfilled (r : Handlers) (log : Log.t) (options : Options)
    (promiseShim : loc) (args : list Value) : M Value :=
  let asyncValue := nth 0 args VUndefined in
  do asyncValue <- shimReturnValueOf r asyncValue options;
  run (if negb (logAsyncResultsImmediately options) then
         do t <- now;
         logger (Log.set_duration (t - Log.timestamp log)
                   (Log.set_result asyncValue log))
       else ret tt);
  run resolvePromise r promiseShim asyncValue;
  ret VUndefined.

Definition asyncRejected (log : Log.t) (options : Options)
    (promiseShim : loc) (args : list Value) : M Value :=
  let error := nth 0 args VUndefined in
  run (if negb (logAsyncResultsImmediately options) then
         do t <- now;
         logger (Log.set_duration (t - Log.timestamp log)
                   (Log.set_threw error (Log.delete_result log)))
       else ret tt);
  run rejectPromise promiseShim error;
  ret VUndefined.

(** [static _shimMethod(traced, object, k, className, options)] *)
Definition _shimMethod (r : Handlers) (traced object : Value)
    (k className : string) (options : Options) : M unit :=
  do originalMethod <- getMember r object k;
  do shim <- allocFunction (MethodShim originalMethod k className options);
  run setMember r traced k shim;
  do installed <- getMember r traced k;
  setMember r installed "__TraceAnything__" (VBool true).

(** [static _shimMember(traced, object, k, className, options)] *)
Definition _shimMember (r : Handlers) (traced object : Value)
    (k className : string) (options : Options) : M unit :=
  do member <- getMember r object k;
  do callable <- isFunction member;
  if callable then
    if methods options
    then _shimMethod r traced object k className options
    else _shimPropertySilent traced object k options
  else
    do thenable <-
      (if properties options && treatPromisePropertiesAsEvents options then
         do member <- getMember r object k;
         if truthy member then
           do member <- getMember r object k;
           do thenMember <- getMember r member "then";
           ret (truthy thenMember)
         else ret false
       else ret false);
    if thenable then _shimPromiseProperty r traced object k className options
    else if properties options
         then _shimProperty r traced object k className options
         else _shimPropertySilent traced object k options.

(** The marker test of [traceObject] and [_shimReturnValue]: the member
    [__TraceAnything__] is a truthy stored value, as the engine writes it. *)
Definition carriesMarker (st : State) (v : Value) : bool :=
  match findProperty st v "__TraceAnything__" with
  | Some (PData x _ _ _) => truthy x
  | _ => false
  end.

(** [static traceObject(object, options)] *)
Definition traceObject (r : Handlers) (object : Value) (opts : PartialOptions)
  : M Value :=
  let options := assign defaultOptions opts in
  do marker <- getMember r object "__TraceAnything__";
  if truthy marker then ret object
  else
    do prototype <- getPrototypeOf object;
    match prototype with
    | None => throw TypeError          (* a primitive cannot be given members *)
    | Some prototype =>
        do ctor <- getMember r prototype "constructor";
        do name <- getMember r ctor "name";
        let className := toString name in
        do traced <- (if inPlace options then ret object else allocObject []);
        do keys <- forInKeys object;
        let allProperties :=
          List.filter (fun k => negb (includes (skipProperties options) k)) keys
          ++ extraProperties options in
        run forEach allProperties (fun k =>
              if startsWith "on" k && events options then ret tt
              else _shimMember r traced object k className options);
        do eventSet <- alloc (mkObj None [] (KSet []));
        run setMember r traced "__TraceAnythingEvents__" (VObj eventSet);
        run (if events options then
               run forEach (List.filter (startsWith "on") allProperties)
                     (fun k => _shimEventListenerProperty r traced object k
                                                          className options);
               do addEventListener <- getMember r object "addEventListener";
               if truthy addEventListener
               then _shimEventListenersDynamically r traced object className
                                                   options
               else ret tt
             else ret tt);
        (* for (const eventName in options.extraEvents) *)
        run forEach (arrayKeys (extraEvents options)) (fun eventName =>
              do eventSet <- getMember r traced "__TraceAnythingEvents__";
              run setAdd eventSet (VStr eventName);
              do noop <- allocFunction Noop;
              do listener <- _shimEventListener r object noop className
                                                eventName options;
              do addEventListener <- getMember r traced "addEventListener";
              run callOf r addEventListener traced [VStr eventName; listener];
              ret tt);
        do ctorPrototype <- getMember r ctor "prototype";
        run setPrototypeOf traced ctorPrototype;
        (* console.assert(traced instanceof ctor) *)
        do callable <- isFunction ctor;
        if negb callable then throw TypeError
        else
          run setMember r traced "__TraceAnything__" (VBool true);
          run _getId r traced className options;
          ret traced
    end.

(** [static _shimReturnValue(returnValue, options)]; the recursive calls
    go through the handlers. *)
Definition _shimReturnValue (r : Handlers) (returnValue : Value)
    (options : Options) : M Value :=
  if isNullish returnValue then ret returnValue
  else
    do marker <- getMember r returnValue "__TraceAnything__";
    if truthy marker then ret returnValue
    else
      do prototype <- getPrototypeOf returnValue;
      do returnTypeOptions <-
        match prototype with
        | Some prototype =>
            do returnType <- getMember r prototype "constructor";
            do st <- getState;
            ret (classOptions (_shimmedClasses st) returnType)
        | None => ret None      (* Number, String, Boolean: never registered *)
        end;
      match returnTypeOptions with
      | Some o => traceObject r returnValue (complete o)
      | None =>
          run forEach (exploreResultFields options) (fun k =>
                do present <- hasProperty returnValue k;
                if present then
                  do field <- getMember r returnValue k;
                  do shimmed <- shimReturnValueOf r field options;
                  setMember r returnValue k shimmed
                else ret tt);
          ret returnValue
      end.

(** [static traceClass(ctor, options)] *)
Definition traceClass (ctor : Value) (opts : PartialOptions) : M Value :=
  let options := assign defaultOptions opts in
  run (fun st => (Ret tt, withClasses (putClass (_shimmedClasses st) ctor options)
                                      st));
  allocFunction (ReplacementConstructor ctor options).

(** The [catch] block of the replacement constructor, entered with the
    record as the [try] block left it. *)
Definition constructorFailed {A} (ts : Z) (log : Log.t) (error : Value) : M A :=
  do t <- now;
  run logger (Log.set_duration (t - ts) (Log.set_threw error log));
  throw error.

(** The function [traceClass] returns, called with [args]. *)
Definition replacementConstructor (r : Handlers) (ctor : Value)
    (options : Options) (args : list Value) : M Value :=
  do name <- getMember r ctor "name";
  let className := toString name in
  do ts <- now;
  let log := Log.set_args args (Log.set_className className
                                  (Log.empty ts Constructor)) in
  do instances <-
    tryCatch
      (do original <- construct r ctor args;
       do traced <- traceObject r original (complete options);
       ret (original, traced))
      (constructorFailed ts log);
  let original := fst instances in
  let traced := snd instances in
  let log := Log.set_instance traced log in
  tryCatch
    (do id <- _getId r traced className options;
     do t <- now;
     run logger (Log.set_duration (t - ts)
                   (Log.set_result original (Log.set_instanceId id log)));
     ret traced)
    (constructorFailed ts log).

(** [static traceMember(object, name, options)] *)
Definition traceMember (r : Handlers) (object : Value) (name : string)
    (opts : PartialOptions) : M Value :=
  let options := assign defaultOptions opts in
  do prototype <- getPrototypeOf object;
  match prototype with
  | None => throw TypeError
  | Some prototype =>
      do ctor <- getMember r prototype "constructor";
      do traced <- (if inPlace options then ret object else allocObject []);
      do ctorName <- getMember r ctor "name";
      run _shimMember r traced object name (toString ctorName) options;
      getMember r traced name
  end.

(** [static tracePrototype(ctor, name, options)] *)
Definition tracePrototype (r : Handlers) (ctor : Value) (name : string)
    (opts : PartialOptions) : M Value :=
  let options := assign defaultOptions opts in
  do traced <- (if inPlace options then getMember r ctor "prototype"
                else allocObject []);
  do prototype <- getMember r ctor "prototype";
  do ctorName <- getMember r ctor "name";
  run _shimMember r traced prototype name (toString ctorName) options;
  getMember r traced name.

(** ** The interpreter *)

Section Interpreter.

(** The behaviour of application and host functions. *)
Variable native : nat -> Value -> list Value -> M Value.

(** Calling a closure: the body of the function literal it stands for. *)
Definition applyClosure (r : Handlers) (c : Closure) (this : Value)
    (args : list Value) : M Value :=
  match c with
  | Native id => native id this args
  | Noop => ret VUndefined
  | ReplacementConstructor ctor options =>
      replacementConstructor r ctor options args
  | MethodShim originalMethod k className options =>
      methodShim r originalMethod k className options this args
  | AsyncFulfilled log options promiseShim =>
      asyncFulfilled r log options promiseShim args
  | AsyncRejected log options promiseShim =>
      asyncRejected log options promiseShim args
  | ValueGetter propertyValue => valueGetter propertyValue
  | ValueSetter propertyValue traced k className options =>
      valueSetter r propertyValue traced k className options args
  | GetterShim originalGet traced k className options =>
      getterShim r originalGet traced k className options this
  | SetterShim originalSet traced k className options =>
      setterShim r originalSet traced k className options this args
  | PromiseResolved traced k className options =>
      promiseEvent r traced k className options " Promise resolved" "result" args
  | PromiseRejected traced k className options =>
      promiseEvent r traced k className options " Promise rejected" "threw" args
  | ListenerGetter originalGet => listenerGetter r originalGet this args
  | ListenerSetter originalSet object className eventName options =>
      listenerSetter r originalSet object className eventName options this args
  | DynamicAddEventListener originalMethod traced className options =>
      dynamicAddEventListener r originalMethod traced className options this args
  | ListenerShim traced listener className eventName options corresponding =>
      listenerShim r traced listener className eventName options corresponding
                   this args
  | ResolveFunction p =>
      run resolvePromise r p (nth 0 args VUndefined); ret VUndefined
  | RejectFunction p =>
      run rejectPromise p (nth 0 args VUndefined); ret VUndefined
  end.

(** [f.apply(this, args)] *)
Definition dispatch (r : Handlers) (f this : Value) (args : list Value)
  : M Value :=
  fun st =>
    match f with
    | VBuiltin BPromiseThen => promiseThen this args st
    | _ =>
        match closureOf st f with
        | Some c => applyClosure r c this args st
        | None => (Throw TypeError, st)
        end
    end.

(** The handlers with [fuel] nested calls left. *)
Fixpoint handlers (fuel : nat) : Handlers :=
  match fuel with
  | O => mkHandlers (fun _ _ _ => outOfFuel) (fun _ _ => outOfFuel)
  | S n =>
      mkHandlers (fun f this args => dispatch (handlers n) f this args)
                 (fun v options => _shimReturnValue (handlers n) v options)
  end.

Definition call (fuel : nat) (f this : Value) (args : list Value) : M Value :=
  callOf (handlers fuel) f this args.

(** Run the pending promise jobs, oldest first, until none is left. *)
Fixpoint runJobs (fuel : nat) : M unit :=
  match fuel with
  | O => fun st => match jobs st with [] => (Ret tt, st) | _ => (OutOfFuel, st) end
  | S n =>
      fun st =>
        match jobs st with
        | [] => (Ret tt, st)
        | j :: rest =>
            (run runJob (handlers n) j; runJobs n) (withJobs rest st)
        end
  end.

End Interpreter.


(** ** The default logger (TraceAnything.defaultLogger)

    The logger makes one console call per record; the call is its result
    here.  Values are shown by the console as they are; arrays are not
    among the values of this model, so every argument of a call is one item
    of the output. *)

Inductive ConsoleMethod := ConsoleWarn | ConsoleError | ConsoleDebug.

Inductive Printed :=
| Text (s : string)
| Shown (v : Value)
| ShownMap (m : list (string * Value)).

Record ConsoleCall := mkConsoleCall {
  consoleMethod : ConsoleMethod;
  consoleArguments : list Printed;
}.

(** A field inside a template string: [`${log.field}`]. *)
Definition valueText (field : option Value) : string :=
  match field with
  | Some v => toString v
  | None => "undefined"
  end.

Definition stringText (field : option string) : string :=
  default "undefined" field.

(** A field handed to the console: an absent field is [undefined]. *)
Definition shownField (field : option Value) : Printed :=
  Shown (default VUndefined field).

Definition shownValue (field : option LogValue) : Printed :=
  match field with
  | Some (LVOne v) => Shown v
  | Some (LVMap m) => ShownMap m
  | None => Shown VUndefined
  end.

(** [if (log.threw)] *)
Definition threwTruthy (log : Log.t) : bool :=
  match Log.threw log with
  | Some e => truthy e
  | None => false
  end.

(** [log.args.reduce((r, a) => r.concat(a, ','), [])] *)
Definition argsWithCommas (args : list Value) : list Printed :=
  fold_left (fun r a => r ++ [Shown a; Text ","]) args [].

(** [TraceAnything.defaultLogger = (log) => { ... }] *)
Definition defaultLogger (log : Log.t) : Outcome ConsoleCall :=
  let logPrefix := "TraceAnything: (ID " +:+ valueText (Log.instanceId log)
                   +:+ ") " in
  match Log.type log with
  | Warning =>
      Ret (mkConsoleCall ConsoleWarn
             [Text (logPrefix +:+ stringText (Log.message log))])
  | Constructor | Method =>
      let logPrefix :=
        match Log.type log with
        | Constructor => logPrefix +:+ "new " +:+ stringText (Log.className log)
        | _ => logPrefix +:+ stringText (Log.className log) +:+ "."
                         +:+ stringText (Log.methodName log)
        end in
      match Log.args log with
      | None => Throw TypeError               (* log.args.reduce on undefined *)
      | Some args =>
          (* argsWithCommas.pop() *)
          let argsWithCommas := removelast (argsWithCommas args) in
          if threwTruthy log then
            Ret (mkConsoleCall ConsoleError
                   ([Text (logPrefix +:+ "(")] ++ argsWithCommas
                    ++ [Text ") threw"; shownField (Log.threw log)]))
          else
            Ret (mkConsoleCall ConsoleDebug
                   ([Text (logPrefix +:+ "(")] ++ argsWithCommas
                    ++ [Text ") =>"; shownField (Log.result log)]))
      end
  | Getter =>
      let logPrefix := logPrefix +:+ stringText (Log.className log) +:+ "."
                                 +:+ stringText (Log.memberName log) in
      if threwTruthy log then
        Ret (mkConsoleCall ConsoleError
               [Text (logPrefix +:+ " threw"); shownField (Log.threw log)])
      else
        Ret (mkConsoleCall ConsoleDebug
               [Text (logPrefix +:+ " =>"); shownField (Log.result log)])
  | Setter =>
      let logPrefix := logPrefix +:+ stringText (Log.className log) +:+ "."
                                 +:+ stringText (Log.memberName log) in
      if threwTruthy log then
        Ret (mkConsoleCall ConsoleError
               [Text (logPrefix +:+ " ="); shownValue (Log.value log);
                Text "threw"; shownField (Log.threw log)])
      else
        Ret (mkConsoleCall ConsoleDebug
               [Text (logPrefix +:+ " ="); shownValue (Log.value log)])
  | Event =>
      let logPrefix := logPrefix +:+ stringText (Log.className log) +:+ " "
                                 +:+ stringText (Log.eventName log) +:+ " event" in
      match Log.value log with
      | Some _ =>                                           (* 'value' in log *)
          Ret (mkConsoleCall ConsoleDebug
                 [Text logPrefix; shownField (Log.event log); Text "=>";
                  shownValue (Log.value log)])
      | None =>
          Ret (mkConsoleCall ConsoleDebug
                 [Text logPrefix; shownField (Log.event log)])
      end
  end.


(** ** A sample application

    A small class written the pre-class way, so that its prototype members
    are enumerable: used to run the engine on concrete inputs. *)

(** Handlers for host code that only touches stored values. *)
Definition noCalls : Handlers :=
  mkHandlers (fun _ _ _ => outOfFuel) (fun _ _ => outOfFuel).

Definition sampleNative (id : nat) (this : Value) (args : list Value) : M Value :=
  match id with
  | 0 => (* function Player() { this.volume = 7; this.muted = false; } *)
      run setMember noCalls this "volume" (VNum 7);
      run setMember noCalls this "muted" (VBool false);
      ret VUndefined
  | 1 => (* addEventListener(name, listener): remember the listener, the
            first one under "listening:name", later ones under "also:name" *)
      let name := toString (nth 0 args VUndefined) in
      do first <- getMember noCalls this ("listening:" +:+ name);
      run setMember noCalls this
            ((if isNullish first then "listening:" else "also:") +:+ name)
            (nth 1 args VUndefined);
      ret VUndefined
  | 2 => (* fail() { throw 'boom'; } *)
      throw (VStr "boom")
  | 3 => (* echo(x) { return x; } *)
      ret (nth 0 args VUndefined)
  | 4 => (* load() { return new Promise(...); }, settled later by the host *)
      do p <- allocPromise; ret (VObj p)
  | 5 => (* get onplay() { return this._onplay; } *)
      getMember noCalls this "_onplay"
  | 6 => (* set onplay(f) { this._onplay = f; } *)
      run setMember noCalls this "_onplay" (nth 0 args VUndefined);
      ret VUndefined
  | 7 => (* function Broken() { throw 'nope'; } *)
      throw (VStr "nope")
  | _ => ret VUndefined
  end.

Definition method (f : loc) : Property := PData (VObj f) true true true.
Definition hidden (v : Value) : Property := PData v true false true.
Definition nativeFunction (id : nat) (ps : list (string * Property)) : Obj :=
  mkObj None ps (KFunction (Native id)).

Definition PlayerPrototype : loc := 0.
Definition Player : loc := 1.
Definition Broken : loc := 8.

Definition sampleHeap : list Obj :=
  [ (* 0: Player.prototype *)
    mkObj None [("constructor", hidden (VObj Player));
                ("addEventListener", hidden (VObj 2));
                ("fail", method 3);
                ("echo", method 4);
                ("load", method 5);
                ("onplay", PAccessor (VObj 6) (VObj 7) true true)] KPlain;
    (* 1: Player *)
    nativeFunction 0 [("name", hidden (VStr "Player"));
                      ("prototype", hidden (VObj PlayerPrototype))];
    nativeFunction 1 []; nativeFunction 2 []; nativeFunction 3 [];
    nativeFunction 4 []; nativeFunction 5 []; nativeFunction 6 [];
    (* 8: Broken, 9: Broken.prototype *)
    nativeFunction 7 [("name", hidden (VStr "Broken"));
                      ("prototype", hidden (VObj 9))];
    mkObj None [("constructor", hidden (VObj Broken))] KPlain ].

Definition sampleState : State := mkState sampleHeap [] ∅ 1000 [] [].

Definition wrapperOptions : PartialOptions :=
  mkPartial (Some false) None None None None None None None None None None None
            None.

(** [new Player()], not traced. *)
Definition newPlayer : M Value := construct (handlers sampleNative 2) (VObj Player) [].

(** [TraceAnything.traceObject(new Player(), {})] *)
Definition tracedPlayer : Outcome Value * State :=
  (do player <- newPlayer;
   traceObject (handlers sampleNative 8) player noOptions) sampleState.

(** [Player = TraceAnything.traceClass(Player, {})]: the replacement
    constructor is the next object allocated, at location 10. *)
Definition classState : State :=
  snd (traceClass (VObj Player) noOptions sampleState).

(** The same with [{inPlace: false}]. *)
Definition wrapperClassState : State :=
  snd (traceClass (VObj Player) wrapperOptions sampleState).

(** [TraceAnything.traceClass(Broken, {})] *)
Definition brokenClassState : State :=
  snd (traceClass (VObj Broken) noOptions sampleState).

(** [{exploreResultFields: ['data']}] *)
Definition exploringOptions : Options :=
  assign defaultOptions
    (mkPartial None None None None None None None None None None (Some ["data"])
               None None).

(** [{extraEvents: ['volumechange']}] *)
Definition extraEventOptions : PartialOptions :=
  mkPartial None None None None None None None (Some ["volumechange"]) None None
            None None None.

(** [TraceAnything.traceObject(new Player(), {extraEvents: ['volumechange']})] *)
Definition tracedWithExtraEvent : Outcome Value * State :=
  (do player <- newPlayer;
   traceObject (handlers sampleNative 8) player extraEventOptions) sampleState.

(** Two players, at locations 10 and 11, neither traced. *)
Definition twoPlayers : State := snd ((run newPlayer; newPlayer) sampleState).

Definition untracedPlayer : Obj :=
  mkObj (Some PlayerPrototype)
        [("volume", PData (VNum 7) true true true);
         ("muted", PData (VBool false) true true true)] KPlain.







(** An object whose member [id] is an accessor that the property shim has
    replaced: location 0 is the object, 1 the getter shim, 2 the native
    getter it delegates to. *)
Definition idAccessorState : State :=
  mkState
    [ mkObj None [("id", PAccessor (VObj 1) VUndefined true true)] KPlain;
      mkObj None []
            (KFunction (GetterShim (VObj 2) (VObj 0) "id" "Thing" defaultOptions));
      nativeFunction 5 [] ]
    [] ∅ 0 [] [].

(** An object with a stored [id]. *)
Definition idValueState : State :=
  mkState [ mkObj None [("id", PData (VStr "main") true true true)] KPlain ]
          [] ∅ 0 [] [].

(** A player made by the host, not through the replacement constructor,
    after [traceClass(Player, {})]: it sits at location 11. *)
Definition hostPlayerState : State := snd (newPlayer classState).

(** [TraceAnything.traceObject(new Player(), {exploreResultFields: ['data']})] *)
Definition exploringPartial : PartialOptions :=
  mkPartial None None None None None None None None None None (Some ["data"])
            None None.

Definition exploringPlayer : State :=
  snd ((do player <- newPlayer;
        traceObject (handlers sampleNative 8) player exploringPartial)
         sampleState).

(** The first of the two players once it has its identity. *)
Definition identifiedPlayerState : State :=
  snd (_getId noCalls (VObj 10) "Player" defaultOptions twoPlayers).

Definition identifiedPlayer : Obj :=
  mkObj (Some PlayerPrototype)
        [("volume", PData (VNum 7) true true true);
         ("muted", PData (VBool false) true true true);
         ("__TraceAnythingId__", PData (VStr "Player_1") true true true)] KPlain.

(** An object with a member that cannot be written and one that cannot be
    reconfigured. *)
Definition settings : Obj :=
  mkObj None [("version", PData (VNum 1) false true true);
              ("fixed", PData (VNum 2) true true false)] KPlain.

Definition settingsState : State := mkState [settings] [] ∅ 5 [] [].

(** The traced player as an object of the heap. *)
Definition tracedPlayerObject : Obj :=
  default (mkObj None [] KPlain) (heap (snd tracedPlayer) !! 10).

(** An object whose member [ready] holds a pending promise (location 1). *)
Definition readyState : State :=
  mkState [ mkObj None [("ready", PData (VObj 1) true true true)] KPlain;
            mkObj None [] (KPromise (Pending [])) ]
          [] ∅ 0 [] [].

(** [TraceAnything.traceClass(Player, {extraProperties: ['later']})]: the
    member [later] does not exist on a new player. *)
Definition laterOptions : PartialOptions :=
  mkPartial None None None None (Some ["later"]) None None None None None None
            None None.

Definition laterClassState : State :=
  snd (traceClass (VObj Player) laterOptions sampleState).

(** ** Vocabulary of the statements *)

(** The record a failed construction emits: class name, arguments, the
    error and the duration, and nothing that names an instance. *)
Definition failureRecord (ts t : Z) (className : string) (args : list Value)
    (error : Value) : Log.t :=
  {| Log.timestamp := ts;
     Log.duration := Some (t - ts)%Z;
     Log.type := Constructor;
     Log.instance := None;
     Log.instanceId := None;
     Log.message := None;
     Log.className := Some className;
     Log.methodName := None;
     Log.memberName := None;
     Log.eventName := None;
     Log.args := Some args;
     Log.threw := Some error;
     Log.result := None;
     Log.value := None;
     Log.event := None |}.

(** The record a successful construction emits. *)
Definition successRecord (ts t : Z) (className : string) (args : list Value)
    (original traced id : Value) : Log.t :=
  {| Log.timestamp := ts;
     Log.duration := Some (t - ts)%Z;
     Log.type := Constructor;
     Log.instance := Some traced;
     Log.instanceId := Some id;
     Log.message := None;
     Log.className := Some className;
     Log.methodName := None;
     Log.memberName := None;
     Log.eventName := None;
     Log.args := Some args;
     Log.threw := None;
     Log.result := Some original;
     Log.value := None;
     Log.event := None |}.


(** A Method record; [result] and [threw] are present or absent. *)
Definition methodRecord (ts : Z) (elapsed : Z) (this id : Value)
    (className k : string) (args : list Value)
    (result threw : option Value) : Log.t :=
  {| Log.timestamp := ts;
     Log.duration := Some elapsed;
     Log.type := Method;
     Log.instance := Some this;
     Log.instanceId := Some id;
     Log.message := None;
     Log.className := Some className;
     Log.methodName := Some k;
     Log.memberName := None;
     Log.eventName := None;
     Log.args := Some args;
     Log.threw := threw;
     Log.result := result;
     Log.value := None;
     Log.event := None |}.

(** Adding one record to what the sink has received. *)
Definition emit (record : Log.t) (st : State) : State :=
  withLogged (logged st ++ [record]) st.

(** The observed-event-name set of an instance. *)
Definition observedEvents (st : State) (traced : Value) : list Value :=
  match findProperty st traced "__TraceAnythingEvents__" with
  | Some (PData set _ _ _) =>
      match kindOf st set with
      | Some (KSet es) => es
      | _ => []
      end
  | _ => []
  end.

(** The test at the head of [_getId]: [options.idProperty] is set and names
    a member of the instance. *)
Definition idPropertyApplies (st : State) (traced : Value) (options : Options)
  : bool :=
  match idProperty options with
  | Some p => truthy (VStr p) && bool_decide (is_Some (findProperty st traced p))
  | None => false
  end.

(** [className + '_' + id] *)
Definition generatedId (className : string) (n : nat) : Value :=
  VStr (className +:+ "_" +:+ pretty n).

(** An Event record; [value] is present or absent. *)
Definition eventRecord (ts : Z) (traced id : Value) (className eventName : string)
    (event : Value) (value : option LogValue) : Log.t :=
  {| Log.timestamp := ts;
     Log.duration := Some 0%Z;
     Log.type := Event;
     Log.instance := Some traced;
     Log.instanceId := Some id;
     Log.message := None;
     Log.className := Some className;
     Log.methodName := None;
     Log.memberName := None;
     Log.eventName := Some eventName;
     Log.args := None;
     Log.threw := None;
     Log.result := None;
     Log.value := value;
     Log.event := Some event |}.

(** A promise as [new Promise] makes it: nothing of its own shadows the
    [then] it inherits. *)
Definition nativePromise (o : Obj) (s : PromiseState) : Prop :=
  proto o = None /\ ownProperty (props o) "then" = None /\ kind o = KPromise s.

Definition promiseObject (s : PromiseState) : Obj := mkObj None [] (KPromise s).

Definition functionObject (c : Closure) : Obj := mkObj None [] (KFunction c).

(** A value [resolve] fulfils a promise with at once: it has no [then]. *)
Definition thenFree (st : State) (v : Value) : bool :=
  match v with
  | VObj _ =>
      bool_decide (findProperty st v "then" = None)
      && match kindOf st v with Some (KPromise _) => false | _ => true end
  | _ => true
  end.

(** A Getter or Setter record. *)
Definition accessRecord (ty : LogTypes) (ts elapsed : Z) (traced id : Value)
    (className k : string) (result threw : option Value)
    (value : option LogValue) : Log.t :=
  {| Log.timestamp := ts;
     Log.duration := Some elapsed;
     Log.type := ty;
     Log.instance := Some traced;
     Log.instanceId := Some id;
     Log.message := None;
     Log.className := Some className;
     Log.methodName := None;
     Log.memberName := Some k;
     Log.eventName := None;
     Log.args := None;
     Log.threw := threw;
     Log.result := result;
     Log.value := value;
     Log.event := None |}.

(** A captured variable holding [v]. *)
Definition variableObject (v : Value) : Obj := mkObj None [] (KVariable v).

(** The Setter record of a write to a stored member: duration 0. *)
Definition setterRecord (ts : Z) (traced id : Value) (className k : string)
    (x : Value) : Log.t :=
  accessRecord Setter ts 0 traced id className k None None (Some (LVOne x)).

(** The Warning record of [_shimProperty]. *)
Definition warningRecord (ts : Z) (k className : string) : Log.t :=
  {| Log.timestamp := ts;
     Log.duration := Some 0%Z;
     Log.type := Warning;
     Log.instance := None;
     Log.instanceId := None;
     Log.message := Some ("Unable to trace " +:+ k +:+ " on " +:+ className
                          +:+ " in-place!");
     Log.className := None;
     Log.methodName := None;
     Log.memberName := None;
     Log.eventName := None;
     Log.args := None;
     Log.threw := None;
     Log.result := None;
     Log.value := None;
     Log.event := None |}.




(** The own member an assignment [o[k] = x] leaves on [o] when it stores a
    value: an own stored member keeps its attributes, a new one is
    enumerable and configurable. *)
Definition assignedProperty (o : Obj) (k : string) (x : Value) : Property :=
  match ownProperty (props o) k with
  | Some (PData _ _ e c) => PData x true e c
  | _ => PData x true true true
  end.
(** * Properties *)

(** ** Running monadic code step by step *)

Lemma bind_Ret {A B} (m : M A) (k : A -> M B) st a st' :
  m st = (Ret a, st') -> bind m k st = k a st'.
Proof. intros H. unfold bind. now rewrite H. Qed.

Lemma bind_Throw {A B} (m : M A) (k : A -> M B) st e st' :
  m st = (Throw e, st') -> bind m k st = (Throw e, st').
Proof. intros H. unfold bind. now rewrite H. Qed.

Lemma bind_now {B} (k : Z -> M B) st : bind now k st = k (clock st) st.
Proof. reflexivity. Qed.

Lemma bind_logger {B} (k : unit -> M B) l st :
  bind (logger l) k st = k tt (withLogged (logged st ++ [l]) st).
Proof. reflexivity. Qed.

Lemma bind_ret {A B} (a : A) (k : A -> M B) st : bind (ret a) k st = k a st.
Proof. reflexivity. Qed.

Lemma tryCatch_Ret {A} (m : M A) h st a st' :
  m st = (Ret a, st') -> tryCatch m h st = (Ret a, st').
Proof. intros H. unfold tryCatch. now rewrite H. Qed.

Lemma tryCatch_Throw {A} (m : M A) h st e st' :
  m st = (Throw e, st') -> tryCatch m h st = h e st'.
Proof. intros H. unfold tryCatch. now rewrite H. Qed.

(** What can have happened when a sequence returned. *)
Lemma bind_Ret_inv {A B} (m : M A) (k : A -> M B) st b st' :
  bind m k st = (Ret b, st') ->
  exists a st1, m st = (Ret a, st1) /\ k a st1 = (Ret b, st').
Proof.
  unfold bind. destruct (m st) as [[a | e |] st1]; intros H; try discriminate.
  now exists a, st1.
Qed.

Lemma closureOf_not_builtin st f c :
  closureOf st f = Some c -> exists l, f = VObj l.
Proof. destruct f; try discriminate. intros _. now eexists. Qed.

Lemma assign_complete o : assign defaultOptions (complete o) = o.
Proof. now destruct o. Qed.

Lemma getMember_marker r st v :
  carriesMarker st v = true ->
  exists x, getMember r v "__TraceAnything__" st = (Ret x, st) /\ truthy x = true.
Proof.
  unfold carriesMarker, getMember. destruct v; try discriminate.
  destruct (findProperty st (VObj l) "__TraceAnything__") as [[x w e c | g s e c] |];
    try discriminate.
  intros H. now exists x.
Qed.

Section Properties.

Variable native : nat -> Value -> list Value -> M Value.

Lemma call_closure n st f c this args :
  closureOf st f = Some c ->
  call native (S n) f this args st
  = applyClosure native (handlers native n) c this args st.
Proof.
  intros H. destruct (closureOf_not_builtin _ _ _ H) as [l ->].
  unfold call. simpl. unfold dispatch. now rewrite H.
Qed.

(** ** Idempotence of traceObject *)

(** C4. An object that carries the "already instrumented" marker is
    returned by [traceObject] as the same reference, and the whole state --
    members, identity, counters, emitted records -- is left as it was. *)
Theorem traceObject_idempotent (r : Handlers) (object : Value)
    (opts : PartialOptions) (st : State) :
  carriesMarker st object = true ->
  traceObject r object opts st = (Ret object, st).
Proof.
  intros H. destruct (getMember_marker r _ _ H) as (x & Hget & Htruthy).
  unfold traceObject. rewrite (bind_Ret _ _ _ _ _ Hget). now rewrite Htruthy.
Qed.


(** ** The replacement constructor *)

Lemma replacementConstructor_failure r ctor options args st name st1 error st2 :
  getMember r ctor "name" st = (Ret name, st1) ->
  construct r ctor args st1 = (Throw error, st2) ->
  replacementConstructor r ctor options args st
  = (Throw error,
     withLogged (logged st2 ++ [failureRecord (clock st1) (clock st2)
                                              (toString name) args error]) st2).
Proof.
  intros Hname Hnew. unfold replacementConstructor.
  rewrite (bind_Ret _ _ _ _ _ Hname), bind_now.
  erewrite bind_Throw; [reflexivity |].
  erewrite tryCatch_Throw; [| erewrite bind_Throw; [reflexivity | exact Hnew]].
  reflexivity.
Qed.

Lemma replacementConstructor_success r ctor options args st name st1 original st2
      traced st3 id st4 :
  getMember r ctor "name" st = (Ret name, st1) ->
  construct r ctor args st1 = (Ret original, st2) ->
  traceObject r original (complete options) st2 = (Ret traced, st3) ->
  _getId r traced (toString name) options st3 = (Ret id, st4) ->
  replacementConstructor r ctor options args st
  = (Ret traced,
     withLogged (logged st4 ++ [successRecord (clock st1) (clock st4)
                                  (toString name) args original traced id]) st4).
Proof.
  intros Hname Hnew Htrace Hid. unfold replacementConstructor.
  rewrite (bind_Ret _ _ _ _ _ Hname), bind_now.
  erewrite bind_Ret;
    [| erewrite tryCatch_Ret; [reflexivity |];
       rewrite (bind_Ret _ _ _ _ _ Hnew), (bind_Ret _ _ _ _ _ Htrace);
       reflexivity].
  cbn [fst snd].
  erewrite tryCatch_Ret; [reflexivity |].
  rewrite (bind_Ret _ _ _ _ _ Hid), bind_now, bind_logger. reflexivity.
Qed.

Ltac bind_inv H :=
  let a := fresh "a" in
  let s := fresh "s" in
  let Ha := fresh "Hstep" in
  apply bind_Ret_inv in H; destruct H as (a & s & Ha & H).

(** In place, [traceObject] hands back the object it was given. *)
Lemma traceObject_inPlace r object opts st traced st' :
  inPlace (assign defaultOptions opts) = true ->
  traceObject r object opts st = (Ret traced, st') ->
  traced = object.
Proof.
  intros Hin H. unfold traceObject in H. rewrite Hin in H.
  bind_inv H. destruct (truthy a); [now inversion H |].
  bind_inv H. destruct a0 as [prototype |]; [| discriminate].
  repeat bind_inv H.
  match type of H with context [if ?b then _ else _] => destruct b end;
    [discriminate |].
  repeat bind_inv H.
  match goal with
  | Hret : ret object _ = (Ret ?x, _) |- _ => inversion Hret; subst x
  end.
  now inversion H.
Qed.

(** C3 (amended).  Calling the replacement constructor that [traceClass]
    returns: when construction and instrumentation succeed, exactly one
    record is added, of type Constructor, with the arguments, the duration,
    the instrumented instance as [instance] and the object the original
    constructor produced as [result]; the instrumented instance is returned,
    and it is that same object when [inPlace] is set.  When the original
    constructor throws, exactly one Constructor record with the error and
    the duration is added and the same error is thrown. *)
Theorem replacement_constructor_records (n : nat) (f ctor this : Value)
    (options : Options) (args : list Value) (st st1 : State) (name : Value) :
  closureOf st f = Some (ReplacementConstructor ctor options) ->
  getMember (handlers native n) ctor "name" st = (Ret name, st1) ->
  (forall original st2 traced st3 id st4,
      construct (handlers native n) ctor args st1 = (Ret original, st2) ->
      traceObject (handlers native n) original (complete options) st2
      = (Ret traced, st3) ->
      _getId (handlers native n) traced (toString name) options st3
      = (Ret id, st4) ->
      call native (S n) f this args st
      = (Ret traced,
         withLogged (logged st4
                     ++ [successRecord (clock st1) (clock st4) (toString name)
                                       args original traced id]) st4)
      /\ (inPlace options = true -> traced = original))
  /\ (forall error st2,
         construct (handlers native n) ctor args st1 = (Throw error, st2) ->
         call native (S n) f this args st
         = (Throw error,
            withLogged (logged st2
                        ++ [failureRecord (clock st1) (clock st2) (toString name)
                                          args error]) st2)).
Proof.
  intros Hf Hname. split.
  - intros original st2 traced st3 id st4 Hnew Htrace Hid. split.
    + rewrite (call_closure _ _ _ _ _ _ Hf). cbn [applyClosure].
      eapply replacementConstructor_success; eassumption.
    + intros Hin. eapply traceObject_inPlace; [| exact Htrace].
      now rewrite assign_complete.
  - intros error st2 Hnew.
    rewrite (call_closure _ _ _ _ _ _ Hf). cbn [applyClosure].
    eapply replacementConstructor_failure; eassumption.
Qed.

(** C10.  When the original constructor throws, the one record the
    replacement constructor emits carries the class name, the argument list,
    the thrown error and a duration, and has no [instance], [instanceId] or
    [result] field; the error is thrown on to the caller. *)
Theorem constructor_failure_names_no_instance (n : nat) (f ctor this : Value)
    (options : Options) (args : list Value) (st st1 st2 : State)
    (name error : Value) :
  closureOf st f = Some (ReplacementConstructor ctor options) ->
  getMember (handlers native n) ctor "name" st = (Ret name, st1) ->
  construct (handlers native n) ctor args st1 = (Throw error, st2) ->
  exists record,
    call native (S n) f this args st
    = (Throw error, withLogged (logged st2 ++ [record]) st2)
    /\ Log.type record = Constructor
    /\ Log.className record = Some (toString name)
    /\ Log.args record = Some args
    /\ Log.threw record = Some error
    /\ Log.duration record = Some (clock st2 - clock st1)%Z
    /\ Log.instance record = None
    /\ Log.instanceId record = None
    /\ Log.result record = None.
Proof.
  intros Hf Hname Hnew.
  exists (failureRecord (clock st1) (clock st2) (toString name) args error).
  split; [| now repeat split].
  rewrite (call_closure _ _ _ _ _ _ Hf). cbn [applyClosure].
  eapply replacementConstructor_failure; eassumption.
Qed.


(** ** The method shim *)

Lemma methodShim_throws r originalMethod k className options this args st id st1
      error st2 :
  _getId r this className options st = (Ret id, st1) ->
  callOf r originalMethod this args st1 = (Throw error, st2) ->
  methodShim r originalMethod k className options this args st
  = (Throw error,
     emit (methodRecord (clock st) (clock st2 - clock st) this id className k
                        args None (Some error)) st2).
Proof.
  intros Hid Hcall. unfold methodShim.
  rewrite bind_now, (bind_Ret _ _ _ _ _ Hid).
  erewrite tryCatch_Throw; [| erewrite bind_Throw; [reflexivity | exact Hcall]].
  reflexivity.
Qed.

(** C6.  When the original method throws [error], the instrumented method
    emits exactly one record -- of type Method, with [threw = error] and no
    [result] field -- and throws the same [error] to its caller. *)
Theorem method_shim_rethrows (n : nat) (f originalMethod this : Value)
    (k className : string) (options : Options) (args : list Value)
    (st st1 st2 : State) (id error : Value) :
  closureOf st f = Some (MethodShim originalMethod k className options) ->
  _getId (handlers native n) this className options st = (Ret id, st1) ->
  call native n originalMethod this args st1 = (Throw error, st2) ->
  exists record,
    call native (S n) f this args st = (Throw error, emit record st2)
    /\ Log.type record = Method
    /\ Log.methodName record = Some k
    /\ Log.args record = Some args
    /\ Log.threw record = Some error
    /\ Log.result record = None.
Proof.
  intros Hf Hid Hcall. eexists. split.
  - rewrite (call_closure _ _ _ _ _ _ Hf). cbn [applyClosure].
    eapply methodShim_throws; eassumption.
  - now repeat split.
Qed.

(** ** The return-value propagator *)

Lemma shimReturnValue_nullish r v options st :
  isNullish v = true -> _shimReturnValue r v options st = (Ret v, st).
Proof. intros H. unfold _shimReturnValue. now rewrite H. Qed.

Lemma shimReturnValue_marked r v options st :
  carriesMarker st v = true -> _shimReturnValue r v options st = (Ret v, st).
Proof.
  intros H. destruct (getMember_marker r _ _ H) as (x & Hget & Htruthy).
  unfold _shimReturnValue.
  assert (isNullish v = false) as ->.
  { destruct v; try reflexivity; discriminate. }
  rewrite (bind_Ret _ _ _ _ _ Hget). now rewrite Htruthy.
Qed.

Lemma shimReturnValue_registered r v options st marker st1 prototype returnType
      st2 registered :
  isNullish v = false ->
  getMember r v "__TraceAnything__" st = (Ret marker, st1) ->
  truthy marker = false ->
  getPrototypeOf v st1 = (Ret (Some prototype), st1) ->
  getMember r prototype "constructor" st1 = (Ret returnType, st2) ->
  classOptions (_shimmedClasses st2) returnType = Some registered ->
  _shimReturnValue r v options st = traceObject r v (complete registered) st2.
Proof.
  intros Hnull Hget Hfalsy Hproto Hctor Hreg. unfold _shimReturnValue.
  rewrite Hnull, (bind_Ret _ _ _ _ _ Hget), Hfalsy.
  rewrite (bind_Ret _ _ _ _ _ Hproto).
  erewrite bind_Ret;
    [| rewrite (bind_Ret _ _ _ _ _ Hctor); unfold bind, getState, ret;
       rewrite Hreg; reflexivity].
  reflexivity.
Qed.

(** C7 (the code at the failing input).  With a field to explore
    configured, propagating a number, a string or a boolean throws a
    TypeError -- the [in] operator is applied to a primitive -- where the
    claim has the value returned as it is. *)
Theorem shimReturnValue_primitive_throws (r : Handlers) (st : State) :
  (forall n, _shimReturnValue r (VNum n) exploringOptions st
             = (Throw TypeError, st))
  /\ (forall s, _shimReturnValue r (VStr s) exploringOptions st
                = (Throw TypeError, st))
  /\ (forall b, _shimReturnValue r (VBool b) exploringOptions st
                = (Throw TypeError, st)).
Proof. repeat split. Qed.

(** ** Forced events *)

(** C2 (the code at the failing input).  Tracing a player with
    [extraEvents: ['volumechange']] records the array index ["0"] in the
    observed-event-name set and registers the shim listener for the event
    ["0"]; the configured name is neither recorded nor registered. *)
Theorem extraEvents_registers_index :
  fst tracedWithExtraEvent = Ret (VObj 10)
  /\ observedEvents (snd tracedWithExtraEvent) (VObj 10)
     = [VStr "play"; VStr "0"]
  /\ is_Some (findProperty (snd tracedWithExtraEvent) (VObj 10) "listening:0")
  /\ findProperty (snd tracedWithExtraEvent) (VObj 10) "listening:volumechange"
     = None.
Proof.
  repeat split; try (vm_compute; reflexivity).
  vm_compute. eexists. reflexivity.
Qed.

(** ** Members after an update of one object *)

Lemma ownProperty_put_eq ps k p : ownProperty (putProperty ps k p) k = Some p.
Proof.
  induction ps as [| [k' p'] ps IH]; simpl.
  - now rewrite String.eqb_refl.
  - destruct (String.eqb k' k) eqn:E; simpl.
    + now rewrite String.eqb_refl.
    + now rewrite E.
Qed.

Lemma ownProperty_put_ne ps k k' p :
  k <> k' -> ownProperty (putProperty ps k' p) k = ownProperty ps k.
Proof.
  intros Hne. induction ps as [| [k0 p0] ps IH]; simpl.
  - destruct (String.eqb k' k) eqn:E; [| reflexivity].
    apply String.eqb_eq in E. congruence.
  - destruct (String.eqb k0 k') eqn:E; simpl.
    + apply String.eqb_eq in E. subst k0.
      destruct (String.eqb k' k) eqn:E'; [| reflexivity].
      apply String.eqb_eq in E'. congruence.
    + now rewrite IH.
Qed.

Lemma lookupChain_put_own n (h : list Obj) l o k p :
  h !! l = Some o ->
  lookupChain (S n) (<[l := objPut o k p]> h) l k = Some p.
Proof.
  intros Hl. cbn [lookupChain].
  rewrite list_lookup_insert_eq by (eapply lookup_lt_Some; exact Hl).
  cbn [objPut props]. now rewrite ownProperty_put_eq.
Qed.

Lemma lookupChain_put_other n (h : list Obj) l o k k' p l0 :
  h !! l = Some o -> k <> k' ->
  lookupChain n (<[l := objPut o k' p]> h) l0 k = lookupChain n h l0 k.
Proof.
  intros Hl Hne. revert l0. induction n as [| n IH]; intros l0; [reflexivity |].
  cbn [lookupChain]. destruct (decide (l = l0)) as [<- | Hl0].
  - rewrite list_lookup_insert_eq by (eapply lookup_lt_Some; exact Hl).
    rewrite Hl. cbn [objPut props proto].
    rewrite ownProperty_put_ne by exact Hne.
    destruct (ownProperty (props o) k); [reflexivity |].
    destruct (proto o); [apply IH | reflexivity].
  - rewrite list_lookup_insert_ne by exact Hl0.
    destruct (h !! l0) as [o0 |]; [| reflexivity].
    destruct (ownProperty (props o0) k); [reflexivity |].
    destruct (proto o0); [apply IH | reflexivity].
Qed.

(** ** Generated identities *)

Lemma nextId_after (st : State) className n f :
  nextId (withHeap f (withIds (<[className := n + 1]> (_nextGeneratedId st)) st))
         className = S n.
Proof.
  unfold nextId. simpl. rewrite lookup_insert_eq. now rewrite Nat.add_1_r.
Qed.

Lemma generatedId_inj className n m :
  generatedId className n = generatedId className m -> n = m.
Proof.
  unfold generatedId. intros H. injection H as H.
  apply String.app_inj in H. apply String.app_inj in H.
  now apply pretty_nat_inj in H.
Qed.

(** The state after [_getId] generated an identity for the object at [l]. *)
Lemma getId_generates r l o className options st :
  idPropertyApplies st (VObj l) options = false ->
  heap st !! l = Some o ->
  findProperty st (VObj l) "__TraceAnythingId__" = None ->
  _getId r (VObj l) className options st
  = (Ret (generatedId className (nextId st className)),
     withHeap (<[l := objPut o "__TraceAnythingId__"
                          (PData (generatedId className (nextId st className))
                                 true true true)]> (heap st))
              (withIds (<[className := nextId st className + 1]>
                          (_nextGeneratedId st)) st)).
Proof.
  intros Hid Hl Hnone. unfold _getId.
  assert (match idProperty options with
          | Some p => if truthy (VStr p) then hasProperty (VObj l) p else ret false
          | None => ret false
          end st = (Ret false, st)) as Hfirst.
  { unfold idPropertyApplies in Hid. destruct (idProperty options) as [p |];
      [| reflexivity].
    destruct (truthy (VStr p)); [| reflexivity].
    unfold hasProperty. cbn [andb] in Hid. now rewrite Hid. }
  rewrite (bind_Ret _ _ _ _ _ Hfirst).
  assert (getMember r (VObj l) "__TraceAnythingId__" st = (Ret VUndefined, st))
    as Hcur.
  { unfold getMember. rewrite Hnone.
    destruct (kindOf st (VObj l)) as [[| | | |] |]; reflexivity. }
  rewrite (bind_Ret _ _ _ _ _ Hcur). cbn [isNullish].
  erewrite bind_Ret.
  2:{ unfold bind at 1. unfold getState at 1. unfold bind at 1.
      unfold setNextId at 1. unfold setMember. cbn [heap withIds].
      rewrite Hl.
      replace (findProperty _ (VObj l) "__TraceAnythingId__") with (@None Property)
        by (symmetry; exact Hnone).
      unfold modifyObj. cbn [heap withIds]. rewrite Hl. reflexivity. }
  unfold getMember, findProperty. cbn [heap withHeap withIds].
  rewrite lookupChain_put_own by exact Hl. reflexivity.
Qed.

(** A stored identity is what every later lookup returns, whenever the
    [idProperty] is either not applicable or is the stored member itself. *)
Lemma getId_stored r l className options st id w e c :
  findProperty st (VObj l) "__TraceAnythingId__" = Some (PData id w e c) ->
  isNullish id = false ->
  (idPropertyApplies st (VObj l) options = false
   \/ idProperty options = Some "__TraceAnythingId__") ->
  _getId r (VObj l) className options st = (Ret id, st).
Proof.
  intros Hfound Hid Happ. unfold _getId.
  assert (getMember r (VObj l) "__TraceAnythingId__" st = (Ret id, st)) as Hget.
  { unfold getMember. now rewrite Hfound. }
  destruct Happ as [Happ | Happ].
  - assert (match idProperty options with
            | Some p => if truthy (VStr p) then hasProperty (VObj l) p
                        else ret false
            | None => ret false
            end st = (Ret false, st)) as Hfirst.
    { unfold idPropertyApplies in Happ. destruct (idProperty options) as [p |];
        [| reflexivity].
      destruct (truthy (VStr p)); [| reflexivity].
      unfold hasProperty. cbn [andb] in Happ. now rewrite Happ. }
    rewrite (bind_Ret _ _ _ _ _ Hfirst), (bind_Ret _ _ _ _ _ Hget), Hid.
    rewrite bind_ret. exact Hget.
  - rewrite Happ. cbn [truthy String.eqb negb default from_option].
    unfold bind at 1. unfold hasProperty. rewrite Hfound.
    cbn [is_Some]. rewrite bool_decide_eq_true_2 by eauto. exact Hget.
Qed.

(** C8.  For an instance without an applicable [idProperty] and without a
    stored identity, the lookup returns [className_n], [n] being the
    class name's counter -- 1 when no identity was generated for that name
    before -- increments the counter and stores the string on the instance;
    every later lookup on the instance returns the same string and changes
    nothing; and the next instance of that class name that needs an
    identity receives [className_(n+1)], a different string. *)
Theorem generated_identity_stable (r : Handlers) (l : loc) (o : Obj)
    (className : string) (options : Options) (st : State) :
  idPropertyApplies st (VObj l) options = false ->
  heap st !! l = Some o ->
  findProperty st (VObj l) "__TraceAnythingId__" = None ->
  let n := nextId st className in
  exists st1,
    _getId r (VObj l) className options st = (Ret (generatedId className n), st1)
    /\ (_nextGeneratedId st !! className = None -> n = 1)
    /\ nextId st1 className = S n
    /\ findProperty st1 (VObj l) "__TraceAnythingId__"
       = Some (PData (generatedId className n) true true true)
    /\ (forall r', _getId r' (VObj l) className options st1
                   = (Ret (generatedId className n), st1))
    /\ (forall r2 l2 o2,
           l2 <> l ->
           idPropertyApplies st1 (VObj l2) options = false ->
           heap st1 !! l2 = Some o2 ->
           findProperty st1 (VObj l2) "__TraceAnythingId__" = None ->
           exists st2,
             _getId r2 (VObj l2) className options st1
             = (Ret (generatedId className (S n)), st2)
             /\ generatedId className (S n) <> generatedId className n
             /\ (forall r', _getId r' (VObj l2) className options st2
                            = (Ret (generatedId className (S n)), st2))).
Proof.
  intros Happ Hl Hnone n.
  pose proof (getId_generates r l o className options st Happ Hl Hnone) as Hgen.
  fold n in Hgen.
  set (st1 := withHeap _ _) in Hgen.
  assert (findProperty st1 (VObj l) "__TraceAnythingId__"
          = Some (PData (generatedId className n) true true true)) as Hstored.
  { unfold findProperty, st1. cbn [heap withHeap withIds].
    now apply lookupChain_put_own. }
  assert (forall st' l' o' id,
             heap st' !! l' = Some o' ->
             idPropertyApplies st' (VObj l') options = false ->
             let st'' := withHeap (<[l' := objPut o' "__TraceAnythingId__"
                                             (PData id true true true)]> (heap st'))
                           (withIds (<[className := nextId st' className + 1]>
                                       (_nextGeneratedId st')) st') in
             idPropertyApplies st'' (VObj l') options = false
             \/ idProperty options = Some "__TraceAnythingId__") as Hkeep.
  { intros st' l' o' id Hl' Happ' st''. unfold idPropertyApplies in *.
    destruct (idProperty options) as [p |]; [| now left].
    destruct (decide (p = "__TraceAnythingId__")) as [-> | Hp]; [now right |].
    left. destruct (truthy (VStr p)); [| reflexivity]. cbn [andb] in *.
    unfold findProperty, st'' in *. cbn [heap withHeap withIds].
    rewrite length_insert.
    rewrite (lookupChain_put_other _ _ _ _ _ _ _ _ Hl' Hp). exact Happ'. }
  exists st1. split; [exact Hgen |]. split.
  { intros Hfresh. unfold n, nextId. now rewrite Hfresh. }
  split; [apply nextId_after |]. split; [exact Hstored |]. split.
  { intros r'. eapply getId_stored; [exact Hstored | reflexivity |].
    apply (Hkeep st l o _ Hl Happ). }
  intros r2 l2 o2 Hne Happ2 Hl2 Hnone2.
  pose proof (getId_generates r2 l2 o2 className options st1 Happ2 Hl2 Hnone2)
    as Hgen2.
  assert (nextId st1 className = S n) as Hnext by apply nextId_after.
  rewrite Hnext in Hgen2.
  eexists. split; [exact Hgen2 |]. split.
  { intros Heq. apply generatedId_inj in Heq. lia. }
  intros r'. eapply getId_stored; [| reflexivity |].
  - unfold findProperty. cbn [heap withHeap withIds].
    now apply lookupChain_put_own.
  - pose proof (Hkeep st1 l2 o2 (generatedId className (S n)) Hl2 Happ2) as Hk.
    cbn zeta in Hk. rewrite Hnext in Hk. exact Hk.
Qed.

(** ** Event correlation *)






(** ** Deferred results *)

Lemma getMember_then r st p o s :
  heap st !! p = Some o -> nativePromise o s ->
  getMember r (VObj p) "then" st = (Ret (VBuiltin BPromiseThen), st).
Proof.
  intros Hp (Hproto & Hown & Hkind). unfold getMember, findProperty, kindOf.
  cbn [lookupChain]. rewrite Hp, Hown, Hproto. cbn [fmap option_fmap option_map].
  now rewrite Hkind.
Qed.

Lemma promiseState_lookup st p o s :
  heap st !! p = Some o -> kind o = KPromise s -> promiseState st p = Some s.
Proof.
  intros Hp Hk. unfold promiseState, kindOf. rewrite Hp. cbn. now rewrite Hk.
Qed.





Lemma thenFree_emit record st v : thenFree (emit record st) v = thenFree st v.
Proof. reflexivity. Qed.





(** ** Passthrough *)













(** * Further properties of the engine *)

Lemma getMember_data r v k st x w e c :
  findProperty st v k = Some (PData x w e c) ->
  getMember r v k st = (Ret x, st).
Proof.
  intros H. unfold getMember. destruct v; try discriminate. now rewrite H.
Qed.

Lemma hasProperty_found v k st p :
  findProperty st v k = Some p -> hasProperty v k st = (Ret true, st).
Proof.
  intros H. unfold hasProperty. destruct v; try discriminate.
  rewrite H. now rewrite bool_decide_eq_true_2 by eauto.
Qed.

Lemma truthy_nonempty s : s <> "" -> truthy (VStr s) = true.
Proof.
  intros H. cbn [truthy]. destruct (String.eqb s "") eqn:E; [| reflexivity].
  apply String.eqb_eq in E. contradiction.
Qed.

(** ** Identities taken from a member *)

(** X1.  When [options.idProperty] names a member holding a stored value,
    the identity is that value as it is now: nothing is generated, no
    counter is used, and after the member is assigned a new value the
    identity is the new value. *)
Theorem getId_follows_idProperty (r : Handlers) (l : loc) (o : Obj)
    (className p : string) (options : Options) (st : State)
    (v : Value) (e c : bool) :
  idProperty options = Some p ->
  p <> "" ->
  heap st !! l = Some o ->
  ownProperty (props o) p = Some (PData v true e c) ->
  _getId r (VObj l) className options st = (Ret v, st)
  /\ (forall v',
         exists st',
           setMember r (VObj l) p v' st = (Ret tt, st')
           /\ _getId r (VObj l) className options st' = (Ret v', st')
           /\ _nextGeneratedId st' = _nextGeneratedId st).
Proof.
  intros Hid Hp Hl Hown.
  assert (forall st0 o0 x,
             heap st0 !! l = Some o0 ->
             ownProperty (props o0) p = Some (PData x true e c) ->
             findProperty st0 (VObj l) p = Some (PData x true e c)) as Hfind.
  { intros st0 o0 x H0 H1. unfold findProperty. cbn [lookupChain].
    now rewrite H0, H1. }
  assert (forall st0 x,
             findProperty st0 (VObj l) p = Some (PData x true e c) ->
             _getId r (VObj l) className options st0 = (Ret x, st0)) as Hget.
  { intros st0 x H0. unfold _getId. rewrite Hid, (truthy_nonempty _ Hp).
    rewrite (bind_Ret _ _ _ _ _ (hasProperty_found _ _ _ _ H0)).
    cbn [default from_option]. now apply (getMember_data r) in H0. }
  split; [apply Hget; eapply Hfind; eassumption |].
  intros v'. unfold setMember. rewrite Hl, (Hfind st o v Hl Hown), Hown.
  unfold modifyObj. rewrite Hl. eexists. split; [reflexivity |].
  split; [| reflexivity].
  apply Hget. eapply Hfind; cbn [heap withHeap].
  - apply list_lookup_insert_eq. eapply lookup_lt_Some. exact Hl.
  - cbn [objPut props]. apply ownProperty_put_eq.
Qed.

(** X2.  A getter shim installed over the member that [options.idProperty]
    names never returns: to fill the record's [instanceId] it asks [_getId],
    which reads that member, which runs the getter shim again.  Whatever the
    number of nested calls allowed, the lookup runs out of them, and nothing
    is logged. *)
Theorem getId_through_traced_accessor_diverges (n : nat) (traced getter : Value)
    (originalGet set : Value) (className p : string) (options : Options)
    (st : State) (e c : bool) :
  idProperty options = Some p ->
  p <> "" ->
  findProperty st traced p = Some (PAccessor getter set e c) ->
  closureOf st getter
  = Some (GetterShim originalGet traced p className options) ->
  _getId (handlers native n) traced className options st = (OutOfFuel, st)
  /\ getMember (handlers native n) traced p st = (OutOfFuel, st).
Proof.
  intros Hid Hp Hfind Hclosure.
  destruct (closureOf_not_builtin _ _ _ Hclosure) as [g ->].
  assert (forall m,
             getMember (handlers native m) traced p st = (OutOfFuel, st) ->
             _getId (handlers native m) traced className options st
             = (OutOfFuel, st)) as Hstep.
  { intros m Hget. unfold _getId. rewrite Hid, (truthy_nonempty _ Hp).
    rewrite (bind_Ret _ _ _ _ _ (hasProperty_found _ _ _ _ Hfind)).
    exact Hget. }
  assert (getMember (handlers native n) traced p st = (OutOfFuel, st)) as Hget.
  { induction n as [| m IH].
    - unfold getMember. destruct traced; try discriminate. now rewrite Hfind.
    - unfold getMember. destruct traced as [| | | | | t |]; try discriminate.
      rewrite Hfind. cbn [handlers callOf]. unfold dispatch. rewrite Hclosure.
      cbn [applyClosure]. unfold getterShim. rewrite bind_now.
      unfold bind at 1. now rewrite (Hstep m IH). }
  split; [apply Hstep |]; exact Hget.
Qed.

(** ** The registry of traced classes *)

Lemma valueEqb_refl v : valueEqb v v = true.
Proof. unfold valueEqb. now apply bool_decide_eq_true. Qed.

Lemma valueEqb_ne a b : a <> b -> valueEqb a b = false.
Proof. intros H. unfold valueEqb. now apply bool_decide_eq_false. Qed.

Lemma classOptions_put_eq cs ctor o : classOptions (putClass cs ctor o) ctor = Some o.
Proof.
  induction cs as [| [c o'] cs IH]; simpl.
  - now rewrite valueEqb_refl.
  - destruct (valueEqb c ctor) eqn:E; simpl; now rewrite E.
Qed.

Lemma classOptions_put_ne cs ctor o other :
  other <> ctor ->
  classOptions (putClass cs ctor o) other = classOptions cs other.
Proof.
  intros Hne. induction cs as [| [c o'] cs IH]; simpl.
  - rewrite valueEqb_ne; [reflexivity | congruence].
  - destruct (valueEqb c ctor) eqn:E; simpl.
    + apply bool_decide_eq_true in E. subst c.
      rewrite valueEqb_ne; [reflexivity | congruence].
    + destruct (valueEqb c other); [reflexivity | exact IH].
Qed.

(** X3.  [traceClass] always succeeds and logs nothing: it returns a new
    function, the replacement constructor for [ctor] with the merged
    options, and leaves the registry holding exactly those options for
    [ctor] -- replacing what an earlier call registered -- with every other
    class's entry as it was. *)
Theorem traceClass_registers (ctor : Value) (opts : PartialOptions) (st : State) :
  exists st',
    traceClass ctor opts st = (Ret (VObj (length (heap st))), st')
    /\ closureOf st' (VObj (length (heap st)))
       = Some (ReplacementConstructor ctor (assign defaultOptions opts))
    /\ classOptions (_shimmedClasses st') ctor = Some (assign defaultOptions opts)
    /\ (forall other,
           other <> ctor ->
           classOptions (_shimmedClasses st') other
           = classOptions (_shimmedClasses st) other)
    /\ logged st' = logged st
    /\ _nextGeneratedId st' = _nextGeneratedId st.
Proof.
  eexists. split; [reflexivity |]. split.
  { unfold closureOf, kindOf. cbn [heap withHeap withClasses].
    rewrite lookup_app_r by lia. now rewrite Nat.sub_diag. }
  split; [apply classOptions_put_eq |]. split; [| split; reflexivity].
  intros other Hne. now apply classOptions_put_ne.
Qed.

(** X4.  A value that is not marked and whose prototype's [constructor] is
    a registered class is instrumented on its way out of any traced method
    with the options registered for its class, not with the options of the
    method that returned it. *)
Theorem registered_instance_uses_class_options (r : Handlers) (l prototype : loc)
    (o : Obj) (ctor : Value) (registered methodOptions : Options) (st : State)
    (w e c : bool) :
  heap st !! l = Some o ->
  proto o = Some prototype ->
  findProperty st (VObj l) "__TraceAnything__" = None ->
  findProperty st (VObj prototype) "constructor" = Some (PData ctor w e c) ->
  classOptions (_shimmedClasses st) ctor = Some registered ->
  _shimReturnValue r (VObj l) methodOptions st
  = traceObject r (VObj l) (complete registered) st.
Proof.
  intros Hl Hproto Hmarker Hctor Hreg.
  eapply shimReturnValue_registered with (marker := VUndefined).
  - reflexivity.
  - unfold getMember. rewrite Hmarker.
    destruct (kindOf st (VObj l)) as [[| | | |] |]; reflexivity.
  - reflexivity.
  - unfold getPrototypeOf. rewrite Hl, Hproto. reflexivity.
  - eapply getMember_data. exact Hctor.
  - exact Hreg.
Qed.

(** ** Values the propagator leaves alone *)

Lemma forEach_skip {A} (xs : list A) (body : A -> M unit) st :
  (forall x, In x xs -> body x st = (Ret tt, st)) ->
  forEach xs body st = (Ret tt, st).
Proof.
  induction xs as [| x xs IH]; intros H; [reflexivity |].
  cbn [forEach]. rewrite (bind_Ret _ _ _ _ _ (H x (or_introl eq_refl))).
  apply IH. intros y Hy. apply H. now right.
Qed.

(** X5.  With no field to explore configured (the default), every value
    that is not an object -- undefined, null, booleans, numbers, strings --
    comes out of the propagator as it went in; and an object that is not
    marked, whose class is not registered and which has none of the fields
    to explore, comes out as the same reference.  In both cases the state is
    untouched. *)
Theorem shimReturnValue_passthrough (r : Handlers) (options : Options)
    (st : State) :
  (forall v,
      (forall l, v <> VObj l) ->
      exploreResultFields options = [] ->
      _shimReturnValue r v options st = (Ret v, st))
  /\ (forall l o prototype ctor w e c,
         heap st !! l = Some o ->
         proto o = Some prototype ->
         findProperty st (VObj l) "__TraceAnything__" = None ->
         findProperty st (VObj prototype) "constructor" = Some (PData ctor w e c) ->
         classOptions (_shimmedClasses st) ctor = None ->
         (forall k, In k (exploreResultFields options) ->
                    findProperty st (VObj l) k = None) ->
         _shimReturnValue r (VObj l) options st = (Ret (VObj l), st)).
Proof.
  split.
  - intros v Hv Hnone. unfold _shimReturnValue. rewrite Hnone.
    destruct v; try reflexivity. now destruct (Hv l).
  - intros l o prototype ctor w e c Hl Hproto Hmarker Hctor Hreg Hfields.
    unfold _shimReturnValue. cbn [isNullish].
    assert (getMember r (VObj l) "__TraceAnything__" st = (Ret VUndefined, st))
      as Hget.
    { unfold getMember. rewrite Hmarker.
      destruct (kindOf st (VObj l)) as [[| | | |] |]; reflexivity. }
    rewrite (bind_Ret _ _ _ _ _ Hget). cbn [truthy].
    assert (getPrototypeOf (VObj l) st = (Ret (Some (VObj prototype)), st))
      as Hp.
    { unfold getPrototypeOf. now rewrite Hl, Hproto. }
    rewrite (bind_Ret _ _ _ _ _ Hp).
    erewrite bind_Ret.
    2:{ rewrite (bind_Ret _ _ _ _ _ (getMember_data r _ _ _ _ _ _ _ Hctor)).
        unfold bind, getState, ret. reflexivity. }
    rewrite Hreg.
    erewrite bind_Ret; [reflexivity |].
    apply forEach_skip. intros k Hk.
    unfold bind, hasProperty. rewrite (Hfields k Hk).
    now rewrite bool_decide_eq_false_2 by (intros [? ?]; discriminate).
Qed.

(** ** The method shim when the propagator fails *)

Lemma methodShim_propagator_throws r originalMethod k className options this
      args st id st1 v st2 thenMember st3 e st4 :
  _getId r this className options st = (Ret id, st1) ->
  callOf r originalMethod this args st1 = (Ret v, st2) ->
  isNullish v = false ->
  getMember r v "then" st2 = (Ret thenMember, st3) ->
  truthy thenMember = false ->
  shimReturnValueOf r v options
    (emit (methodRecord (clock st) (clock st2 - clock st) this id className k
                        args (Some v) None) st3)
  = (Throw e, st4) ->
  methodShim r originalMethod k className options this args st
  = (Throw e,
     emit (methodRecord (clock st) (clock st4 - clock st) this id className k
                        args None (Some e)) st4).
Proof.
  intros Hid Hcall Hnull Hthen Hfalsy Hshim. unfold methodShim.
  rewrite bind_now, (bind_Ret _ _ _ _ _ Hid).
  erewrite tryCatch_Throw.
  2:{ rewrite (bind_Ret _ _ _ _ _ Hcall), bind_now, Hnull.
      rewrite (bind_Ret _ _ _ _ _ Hthen), Hfalsy, bind_logger. exact Hshim. }
  reflexivity.
Qed.

(** X6.  When the original method returns a value without [then] and the
    return-value propagator then throws, the instrumented method has
    already emitted its record of the successful return; it emits a second
    Method record carrying the propagator's error and no [result], and
    throws that error to the caller.  In particular, with a field to explore
    configured, an instrumented method whose original returns a number, a
    string or a boolean throws a TypeError and logs two records. *)
Theorem method_shim_reports_propagator_failure (n : nat)
    (f originalMethod this : Value) (k className : string) (options : Options)
    (args : list Value) (st st1 st2 : State) (id v : Value) :
  closureOf st f = Some (MethodShim originalMethod k className options) ->
  _getId (handlers native (S n)) this className options st = (Ret id, st1) ->
  call native (S n) originalMethod this args st1 = (Ret v, st2) ->
  let returned := methodRecord (clock st) (clock st2 - clock st) this id
                               className k args (Some v) None in
  (forall thenMember st3 e st4,
      isNullish v = false ->
      getMember (handlers native (S n)) v "then" st2 = (Ret thenMember, st3) ->
      truthy thenMember = false ->
      _shimReturnValue (handlers native n) v options
                       (emit (methodRecord (clock st) (clock st2 - clock st) this
                                           id className k args (Some v) None) st3)
      = (Throw e, st4) ->
      call native (S (S n)) f this args st
      = (Throw e,
         emit (methodRecord (clock st) (clock st4 - clock st) this id className k
                            args None (Some e)) st4))
  /\ (forall field rest,
         exploreResultFields options = field :: rest ->
         (exists x, v = VNum x) \/ (exists x, v = VStr x) \/ (exists x, v = VBool x) ->
         call native (S (S n)) f this args st
         = (Throw TypeError,
            emit (methodRecord (clock st) (clock st2 - clock st) this id
                               className k args None (Some TypeError))
                 (emit returned st2))).
Proof.
  intros Hf Hid Hcall returned.
  assert (forall thenMember st3 e st4,
             isNullish v = false ->
             getMember (handlers native (S n)) v "then" st2
             = (Ret thenMember, st3) ->
             truthy thenMember = false ->
             _shimReturnValue (handlers native n) v options
               (emit (methodRecord (clock st) (clock st2 - clock st) this
                                   id className k args (Some v) None) st3)
             = (Throw e, st4) ->
             call native (S (S n)) f this args st
             = (Throw e,
                emit (methodRecord (clock st) (clock st4 - clock st) this id
                                   className k args None (Some e)) st4))
    as Hgeneral.
  { intros thenMember st3 e st4 Hnull Hthen Hfalsy Hshim.
    rewrite (call_closure _ _ _ _ _ _ Hf). cbn [applyClosure].
    eapply methodShim_propagator_throws; eassumption. }
  split; [exact Hgeneral |].
  intros field rest Hfields Hprimitive.
  assert (isNullish v = false
          /\ getMember (handlers native (S n)) v "then" st2 = (Ret VUndefined, st2)
          /\ _shimReturnValue (handlers native n) v options (emit returned st2)
             = (Throw TypeError, emit returned st2)) as (Hnull & Hthen & Hshim).
  { unfold _shimReturnValue. rewrite Hfields.
    destruct Hprimitive as [[x ->] | [[x ->] | [x ->]]]; repeat split. }
  exact (Hgeneral VUndefined st2 TypeError (emit returned st2) Hnull Hthen
                  eq_refl Hshim).
Qed.

(** ** Deferred results logged at once *)





(** ** The property shim over a stored value *)

Lemma shimProperty_writable_value r t wrapper object k className options st v
      enumerable c :
  findProperty st object k = Some (PData v true enumerable c) ->
  inPlace options && negb c = false ->
  heap st !! t = Some wrapper ->
  match ownProperty (props wrapper) k with
  | Some old => configurableOf old = true
  | None => True
  end ->
  let cell := length (heap st) in
  _shimProperty r (VObj t) object k className options st
  = (Ret tt,
     withHeap
       (<[t := objPut wrapper k
                 (PAccessor (VObj (cell + 1)) (VObj (cell + 2)) enumerable true)]>
          (heap st ++ [variableObject v;
                       functionObject (ValueGetter cell);
                       functionObject (ValueSetter cell (VObj t) k className
                                                   options)]))
       st).
Proof.
  intros Hd Hguard Ht Hown cell. unfold _shimProperty.
  rewrite (bind_Ret _ _ st (Some (PData v true enumerable c)) st)
    by (unfold _getDescriptor; now rewrite Hd).
  cbn [configurableOf]. rewrite Hguard.
  erewrite bind_Ret; [| reflexivity].
  erewrite bind_Ret; [| reflexivity].
  erewrite bind_Ret; [| reflexivity].
  cbn [heap withHeap].
  unfold defineProperty. cbn [heap withHeap].
  rewrite !length_app. cbn [length]. rewrite <- !app_assoc. cbn [app].
  rewrite <- !Nat.add_assoc. cbn [Nat.add].
  rewrite (lookup_app_l_Some _ _ _ _ Ht).
  unfold modifyObj. cbn [heap withHeap].
  rewrite (lookup_app_l_Some _ _ _ _ Ht).
  destruct (ownProperty (props wrapper) k) as [old |].
  - rewrite Hown. destruct st; reflexivity.
  - destruct st; reflexivity.
Qed.

(** X8.  The property shim over a writable stored value (installed on the
    object itself when the member can be reconfigured, or on a wrapper)
    emits nothing when installed; reading the member returns the stored
    value and emits nothing; writing it, once the instance has its identity,
    emits exactly one Setter record with the written value and duration 0,
    after which the written value is read back.  The value lives in the
    shim: the member of a different original object still holds the old
    value after a write through the wrapper. *)
Theorem stored_member_round_trip (n : nat) (t : loc) (wrapper : Obj)
    (object : Value) (k className : string) (options : Options) (st : State)
    (v : Value) (enumerable c : bool) :
  findProperty st object k = Some (PData v true enumerable c) ->
  inPlace options && negb c = false ->
  heap st !! t = Some wrapper ->
  match ownProperty (props wrapper) k with
  | Some old => configurableOf old = true
  | None => True
  end ->
  exists st',
    _shimProperty (handlers native n) (VObj t) object k className options st
    = (Ret tt, st')
    /\ logged st' = logged st
    /\ getMember (handlers native (S n)) (VObj t) k st' = (Ret v, st')
    /\ (forall x id,
           _getId (handlers native n) (VObj t) className options st'
           = (Ret id, st') ->
           exists st'',
             setMember (handlers native (S n)) (VObj t) k x st' = (Ret tt, st'')
             /\ logged st''
                = logged st' ++ [setterRecord (clock st') (VObj t) id className k x]
             /\ getMember (handlers native (S n)) (VObj t) k st''
                = (Ret x, st'')
             /\ (forall original oo w' e' c',
                    original <> t ->
                    heap st !! original = Some oo ->
                    ownProperty (props oo) k = Some (PData v w' e' c') ->
                    findProperty st'' (VObj original) k
                    = Some (PData v w' e' c'))).
Proof.
  intros Hd Hguard Ht Hown.
  pose proof (shimProperty_writable_value (handlers native n) t wrapper object k
                className options st v enumerable c Hd Hguard Ht Hown) as Hshim.
  cbv zeta in Hshim.
  set (cell := length (heap st)) in *.
  set (wrapper' := objPut wrapper k _) in Hshim.
  set (new := [variableObject v; _; _]) in Hshim.
  set (st' := withHeap _ st) in Hshim.
  assert (t < cell) as Hlt by (eapply lookup_lt_Some; exact Ht).
  assert (forall (h : list Obj) cellObject,
             h = <[cell := cellObject]> (heap st') \/ h = heap st' ->
             h !! t = Some wrapper'
             /\ h !! (cell + 1) = Some (functionObject (ValueGetter cell))
             /\ h !! (cell + 2)
                = Some (functionObject (ValueSetter cell (VObj t) k className
                                                    options))) as Hheap.
  { assert (heap st' !! t = Some wrapper') as H0.
    { unfold st'. cbn [heap withHeap]. apply list_lookup_insert_eq.
      rewrite length_app. lia. }
    assert (forall i x, new !! i = Some x -> heap st' !! (cell + i) = Some x) as H1.
    { intros i x Hi. unfold st'. cbn [heap withHeap].
      rewrite list_lookup_insert_ne by lia.
      rewrite lookup_app_r by (unfold cell; lia).
      replace (cell + i - length (heap st)) with i by (unfold cell; lia).
      exact Hi. }
    intros h cellObject [-> | ->].
    - rewrite !list_lookup_insert_ne by lia.
      split; [exact H0 |]. split; [apply (H1 1) | apply (H1 2)]; reflexivity.
    - split; [exact H0 |]. split; [apply (H1 1) | apply (H1 2)]; reflexivity. }
  assert (forall s y,
             heap s !! t = Some wrapper' ->
             heap s !! (cell + 1) = Some (functionObject (ValueGetter cell)) ->
             heap s !! cell = Some (variableObject y) ->
             getMember (handlers native (S n)) (VObj t) k s = (Ret y, s)) as Hread.
  { intros s y H0 H1 H2. unfold getMember, findProperty. cbn [lookupChain].
    rewrite H0. unfold wrapper'. cbn [objPut props]. rewrite ownProperty_put_eq.
    cbn [handlers callOf]. unfold dispatch, closureOf, kindOf. rewrite H1.
    cbn [fmap option_fmap option_map functionObject kind applyClosure].
    unfold valueGetter, kindOf. now rewrite H2. }
  destruct (Hheap (heap st') (variableObject v) (or_intror eq_refl))
    as (H0 & H1 & H2).
  assert (heap st' !! cell = Some (variableObject v)) as Hcell.
  { unfold st'. cbn [heap withHeap]. rewrite list_lookup_insert_ne by lia.
    rewrite lookup_app_r by (unfold cell; lia).
    now replace (cell - length (heap st)) with 0 by (unfold cell; lia). }
  exists st'. split; [exact Hshim |]. split; [reflexivity |].
  split; [now apply Hread |].
  intros x id Hid.
  eexists. split; [| split; [| split]].
  - unfold setMember, findProperty. cbn [lookupChain]. rewrite H0.
    unfold wrapper'. cbn [objPut props]. rewrite ownProperty_put_eq.
    cbn [handlers callOf]. unfold bind at 1. unfold dispatch, closureOf, kindOf.
    rewrite H2.
    cbn [fmap option_fmap option_map functionObject kind applyClosure].
    unfold valueSetter. cbn [nth]. rewrite bind_now, (bind_Ret _ _ _ _ _ Hid).
    rewrite bind_logger. unfold bind at 1. unfold modifyObj.
    cbn [heap withLogged]. rewrite Hcell. reflexivity.
  - reflexivity.
  - destruct (Hheap (<[cell := objWithKind (variableObject v) (KVariable x)]>
                       (heap st')) _ (or_introl eq_refl)) as (G0 & G1 & _).
    apply Hread; cbn [heap withHeap withLogged]; try assumption.
    apply list_lookup_insert_eq. eapply lookup_lt_Some. exact Hcell.
  - intros original oo w' e' c' Hne Ho Hk.
    assert (original < cell) as Hlo by (eapply lookup_lt_Some; exact Ho).
    unfold findProperty. cbn [heap withHeap withLogged lookupChain].
    unfold st'. cbn [heap withHeap].
    rewrite !list_lookup_insert_ne by lia.
    rewrite (lookup_app_l_Some _ _ _ _ Ho). now rewrite Hk.
Qed.

Lemma shimProperty_readonly_value r t wrapper object k className options st v
      enumerable c :
  findProperty st object k = Some (PData v false enumerable c) ->
  inPlace options && negb c = false ->
  heap st !! t = Some wrapper ->
  match ownProperty (props wrapper) k with
  | Some old => configurableOf old = true
  | None => True
  end ->
  let cell := length (heap st) in
  _shimProperty r (VObj t) object k className options st
  = (Ret tt,
     withHeap
       (<[t := objPut wrapper k
                 (PAccessor (VObj (cell + 1)) VUndefined enumerable true)]>
          (heap st ++ [variableObject v; functionObject (ValueGetter cell)]))
       st).
Proof.
  intros Hd Hguard Ht Hown cell. unfold _shimProperty.
  rewrite (bind_Ret _ _ st (Some (PData v false enumerable c)) st)
    by (unfold _getDescriptor; now rewrite Hd).
  cbn [configurableOf]. rewrite Hguard.
  erewrite bind_Ret; [| reflexivity].
  erewrite bind_Ret; [| reflexivity].
  rewrite bind_ret.
  cbn [heap withHeap].
  unfold defineProperty. cbn [heap withHeap].
  rewrite !length_app. cbn [length]. rewrite <- !app_assoc. cbn [app].
  rewrite (lookup_app_l_Some _ _ _ _ Ht).
  unfold modifyObj. cbn [heap withHeap].
  rewrite (lookup_app_l_Some _ _ _ _ Ht).
  destruct (ownProperty (props wrapper) k) as [old |].
  - rewrite Hown. destruct st; reflexivity.
  - destruct st; reflexivity.
Qed.

(** X9.  The property shim over a stored value that is not writable
    installs no mutator: the member still reads as the stored value, and
    every assignment to it in strict code throws a TypeError, changes
    nothing and emits nothing. *)
Theorem readonly_member_stays_readonly (n : nat) (t : loc) (wrapper : Obj)
    (object : Value) (k className : string) (options : Options) (st : State)
    (v : Value) (enumerable c : bool) :
  findProperty st object k = Some (PData v false enumerable c) ->
  inPlace options && negb c = false ->
  heap st !! t = Some wrapper ->
  match ownProperty (props wrapper) k with
  | Some old => configurableOf old = true
  | None => True
  end ->
  exists st',
    _shimProperty (handlers native n) (VObj t) object k className options st
    = (Ret tt, st')
    /\ logged st' = logged st
    /\ getMember (handlers native (S n)) (VObj t) k st' = (Ret v, st')
    /\ (forall r x, setMember r (VObj t) k x st' = (Throw TypeError, st')).
Proof.
  intros Hd Hguard Ht Hown.
  pose proof (shimProperty_readonly_value (handlers native n) t wrapper object k
                className options st v enumerable c Hd Hguard Ht Hown) as Hshim.
  cbv zeta in Hshim.
  set (cell := length (heap st)) in *.
  set (wrapper' := objPut wrapper k _) in Hshim.
  set (st' := withHeap _ st) in Hshim.
  assert (t < cell) as Hlt by (eapply lookup_lt_Some; exact Ht).
  assert (heap st' !! t = Some wrapper') as H0.
  { unfold st'. cbn [heap withHeap]. apply list_lookup_insert_eq.
    rewrite length_app. lia. }
  assert (forall i x,
             [variableObject v; functionObject (ValueGetter cell)] !! i = Some x ->
             heap st' !! (cell + i) = Some x) as H1.
  { intros i x Hi. unfold st'. cbn [heap withHeap].
    rewrite list_lookup_insert_ne by lia.
    rewrite lookup_app_r by (unfold cell; lia).
    replace (cell + i - length (heap st)) with i by (unfold cell; lia).
    exact Hi. }
  exists st'. split; [exact Hshim |]. split; [reflexivity |]. split.
  - unfold getMember, findProperty. cbn [lookupChain].
    rewrite H0. unfold wrapper'. cbn [objPut props]. rewrite ownProperty_put_eq.
    cbn [handlers callOf]. unfold dispatch, closureOf, kindOf.
    rewrite (H1 1 _ eq_refl).
    cbn [fmap option_fmap option_map functionObject kind applyClosure].
    unfold valueGetter, kindOf.
    replace cell with (cell + 0) at 1 by lia. now rewrite (H1 0 _ eq_refl).
  - intros r x. unfold setMember, findProperty. cbn [lookupChain]. rewrite H0.
    unfold wrapper'. cbn [objPut props]. now rewrite ownProperty_put_eq.
Qed.


(** X10.  Two ways the property shim declines.  In place, a member whose
    descriptor is not configurable is left untouched: the only effect is one
    Warning record, with duration 0, naming the member and the class.  And a
    member that does not exist at all (as a name listed in
    [extraProperties] may) makes [_shimMember] throw a TypeError when
    properties are traced, before anything is changed or logged. *)
Theorem property_shim_declines (r : Handlers) (traced : Value) (k className : string)
    (options : Options) (st : State) :
  (forall object d,
      findProperty st object k = Some d ->
      inPlace options = true ->
      configurableOf d = false ->
      _shimProperty r traced object k className options st
      = (Ret tt, emit (warningRecord (clock st) k className) st))
  /\ (forall l,
         findProperty st (VObj l) k = None ->
         k <> "then" ->
         properties options = true ->
         _shimMember r traced (VObj l) k className options st
         = (Throw TypeError, st)).
Proof.
  split.
  - intros object d Hd Hin Hc. unfold _shimProperty.
    rewrite (bind_Ret _ _ st (Some d) st)
      by (unfold _getDescriptor; now rewrite Hd).
    now rewrite Hin, Hc.
  - intros l Hnone Hk Hprops.
    assert (getMember r (VObj l) k st = (Ret VUndefined, st)) as Hget.
    { unfold getMember. rewrite Hnone.
      destruct (kindOf st (VObj l)) as [[| | | |] |]; try reflexivity.
      destruct (String.eqb k "then") eqn:E; [| reflexivity].
      apply String.eqb_eq in E. contradiction. }
    unfold _shimMember. rewrite (bind_Ret _ _ _ _ _ Hget).
    rewrite (bind_Ret _ _ st false st) by reflexivity.
    rewrite Hprops.
    erewrite bind_Ret.
    2:{ destruct (treatPromisePropertiesAsEvents options); cbn [andb];
          [rewrite (bind_Ret _ _ _ _ _ Hget) |]; reflexivity. }
    cbn iota. unfold _shimProperty.
    rewrite (bind_Ret _ _ st None st)
      by (unfold _getDescriptor; now rewrite Hnone).
    reflexivity.
Qed.

(** ** Listeners assigned to an "on" member *)

(** Wrapping a listener always succeeds: it allocates the wrapper and
    nothing else. *)
Lemma shimEventListener_allocates r traced listener className eventName options st :
  exists corresponding,
    _shimEventListener r traced listener className eventName options st
    = allocFunction (ListenerShim traced listener className eventName options
                                  corresponding) st.
Proof.
  unfold _shimEventListener.
  destruct (eventPropertyOf options eventName) as [[name | names] |].
  - now eexists.
  - now eexists.
  - unfold forInKeys. destruct traced; now eexists.
Qed.

(** X11.  Assigning a falsy value (null, undefined) to a shimmed "on"
    member does not clear the native handler: the original mutator is
    called with a newly made listener wrapper around a newly made no-op
    function, so the engine keeps receiving the event.  Nothing is logged by
    the assignment itself. *)
Theorem cleared_listener_is_neutralised (n : nat) (f originalSet object this : Value)
    (className eventName : string) (options : Options) (listener : Value)
    (st : State) :
  closureOf st f
  = Some (ListenerSetter originalSet object className eventName options) ->
  truthy listener = false ->
  let noop := VObj (length (heap st)) in
  let shim := VObj (length (heap st) + 1) in
  exists corresponding st1,
    call native (S n) f this [listener] st
    = (run call native n originalSet this [shim]; ret VUndefined) st1
    /\ closureOf st1 noop = Some Noop
    /\ closureOf st1 shim
       = Some (ListenerShim object noop className eventName options corresponding)
    /\ logged st1 = logged st
    /\ (forall l o, heap st !! l = Some o -> heap st1 !! l = Some o).
Proof.
  intros Hf Hfalsy noop shim.
  set (st0 := withHeap (heap st ++ [functionObject Noop]) st).
  destruct (shimEventListener_allocates (handlers native n) object noop className
              eventName options st0) as [corresponding Hshim].
  exists corresponding.
  exists (withHeap (heap st0 ++ [functionObject
                                   (ListenerShim object noop className eventName
                                                 options corresponding)]) st0).
  split; [| split; [| split; [| split]]].
  - rewrite (call_closure _ _ _ _ _ _ Hf). cbn [applyClosure].
    unfold listenerSetter. cbn [nth]. rewrite Hfalsy.
    rewrite (bind_Ret _ _ st noop st0) by reflexivity.
    rewrite (bind_Ret _ _ st0 shim
               (withHeap (heap st0 ++ [functionObject
                                         (ListenerShim object noop className
                                            eventName options corresponding)])
                         st0)).
    + reflexivity.
    + rewrite Hshim. unfold allocFunction, bind, alloc, ret, shim, st0.
      cbn [heap withHeap]. now rewrite length_app.
  - unfold closureOf, kindOf, noop, st0. cbn [heap withHeap].
    rewrite <- app_assoc. rewrite lookup_app_r by lia.
    now rewrite Nat.sub_diag.
  - unfold closureOf, kindOf, shim, st0. cbn [heap withHeap].
    rewrite lookup_app_r by (rewrite length_app; cbn; lia).
    rewrite length_app. cbn [length].
    now rewrite Nat.sub_diag.
  - reflexivity.
  - intros l o Hl. unfold st0. cbn [heap withHeap]. rewrite <- app_assoc.
    now apply lookup_app_l_Some.
Qed.

(** ** Events discovered through addEventListener *)

Lemma bind_assoc {A B C} (m : M A) (k : A -> M B) (h : B -> M C) st :
  bind (bind m k) h st = bind m (fun x => bind (k x) h) st.
Proof. unfold bind. destruct (m st) as [[a | e |] st']; reflexivity. Qed.

Lemma findProperty_own st l o k p :
  heap st !! l = Some o -> ownProperty (props o) k = Some p ->
  findProperty st (VObj l) k = Some p.
Proof.
  intros Hl Hown. unfold findProperty. cbn [lookupChain]. now rewrite Hl, Hown.
Qed.

Lemma setHas_elements st l o es x :
  heap st !! l = Some o -> kind o = KSet es ->
  setHas (VObj l) x st = (Ret (existsb (valueEqb x) es), st).
Proof.
  intros Hl Hk. unfold setHas, bind, setElements, kindOf. rewrite Hl.
  cbn [fmap option_fmap option_map]. now rewrite Hk.
Qed.

Lemma setAdd_new st l o es x :
  heap st !! l = Some o -> kind o = KSet es ->
  existsb (valueEqb x) es = false ->
  setAdd (VObj l) x st
  = (Ret tt, withHeap (<[l := objWithKind o (KSet (es ++ [x]))]> (heap st)) st).
Proof.
  intros Hl Hk Hnew. unfold setAdd, bind, setElements, kindOf. rewrite Hl.
  cbn [fmap option_fmap option_map]. rewrite Hk, Hnew.
  unfold modifyObj. now rewrite Hl.
Qed.

(** X12.  The replacement [addEventListener].  For an event name already
    in the instance's observed-event-name set, or listed in [skipEvents],
    the call is exactly the original call with the caller's arguments.  For
    a new event name, the name is first added to the set, then a listener
    wrapper around a new no-op function is registered through the original
    method, then the caller's call is forwarded with its arguments
    unchanged; nothing is logged by the registration. *)
Theorem dynamic_listener_discovery (n : nat) (f originalMethod this : Value)
    (className : string) (options : Options) (t es : loc) (tracedObject set : Obj)
    (elements : list Value) (w e c : bool) (eventName : Value)
    (args : list Value) (st : State) :
  closureOf st f
  = Some (DynamicAddEventListener originalMethod (VObj t) className options) ->
  heap st !! t = Some tracedObject ->
  ownProperty (props tracedObject) "__TraceAnythingEvents__"
  = Some (PData (VObj es) w e c) ->
  heap st !! es = Some set ->
  kind set = KSet elements ->
  (existsb (valueEqb eventName) elements
   || includesValue (skipEvents options) eventName = true ->
   call native (S n) f this (eventName :: args) st
   = call native n originalMethod this (eventName :: args) st)
  /\ (forall name,
         eventName = VStr name ->
         existsb (valueEqb eventName) elements = false ->
         includes (skipEvents options) name = false ->
         let noop := VObj (length (heap st)) in
         let shim := VObj (length (heap st) + 1) in
         exists corresponding st1,
           call native (S n) f this (eventName :: args) st
           = (run call native n originalMethod this [eventName; shim];
              call native n originalMethod this (eventName :: args)) st1
           /\ observedEvents st1 (VObj t) = elements ++ [eventName]
           /\ closureOf st1 noop = Some Noop
           /\ closureOf st1 shim
              = Some (ListenerShim (VObj t) noop className name options
                                   corresponding)
           /\ logged st1 = logged st).
Proof.
  intros Hf Ht Hmember Hes Hkind.
  pose proof (findProperty_own _ _ _ _ _ Ht Hmember) as Hfind.
  pose proof (getMember_data (handlers native n) _ _ _ _ _ _ _ Hfind) as Hget.
  split.
  - intros Hknown.
    rewrite (call_closure _ _ _ _ _ _ Hf). cbn [applyClosure].
    unfold dynamicAddEventListener. cbn [nth tl].
    rewrite (bind_Ret _ _ _ _ _ Hget).
    rewrite (bind_Ret _ _ _ _ _ (setHas_elements _ _ _ _ eventName Hes Hkind)).
    rewrite <- negb_orb, Hknown. cbn [negb]. now rewrite bind_ret.
  - intros name -> Hnew Hskip noop shim.
    set (sM := withHeap (<[es := objWithKind set
                                   (KSet (elements ++ [VStr name]))]> (heap st)) st).
    set (sN := withHeap (heap sM ++ [functionObject Noop]) sM).
    assert (length (heap sM) = length (heap st)) as HlenM
      by (unfold sM; cbn [heap withHeap]; apply length_insert).
    destruct (shimEventListener_allocates (handlers native n) (VObj t) noop
                className name options sN) as [corresponding Hshim].
    set (st1 := withHeap (heap sN ++ [functionObject
                                        (ListenerShim (VObj t) noop className name
                                                      options corresponding)]) sN).
    exists corresponding, st1.
    assert (es < length (heap st)) as Hlt by (eapply lookup_lt_Some; exact Hes).
    split; [| split; [| split; [| split]]].
    + rewrite (call_closure _ _ _ _ _ _ Hf). cbn [applyClosure].
      unfold dynamicAddEventListener. cbn [nth tl].
      rewrite (bind_Ret _ _ _ _ _ Hget).
      rewrite (bind_Ret _ _ _ _ _ (setHas_elements _ _ _ _ (VStr name) Hes Hkind)).
      rewrite Hnew. cbn [includesValue]. rewrite Hskip. cbn [negb andb].
      rewrite bind_assoc, (bind_Ret _ _ _ _ _ Hget).
      rewrite bind_assoc.
      rewrite (bind_Ret _ _ _ _ _ (setAdd_new _ _ _ _ (VStr name) Hes Hkind Hnew)).
      fold sM. rewrite bind_assoc.
      rewrite (bind_Ret _ _ sM noop sN)
        by (unfold allocFunction, bind, alloc, ret, noop; now rewrite HlenM).
      rewrite bind_assoc.
      rewrite (bind_Ret _ _ sN shim st1).
      2:{ rewrite Hshim. unfold allocFunction, bind, alloc, ret, shim, st1, sN.
          cbn [heap withHeap]. rewrite length_app, HlenM. reflexivity. }
      rewrite bind_assoc. reflexivity.
    + unfold observedEvents.
      assert (exists o', heap st1 !! t = Some o' /\ props o' = props tracedObject)
        as (o' & Ho' & Hprops).
      { unfold st1, sN, sM. cbn [heap withHeap]. rewrite <- app_assoc.
        destruct (decide (es = t)) as [-> | Hne].
        - exists (objWithKind set (KSet (elements ++ [VStr name]))).
          split.
          + apply lookup_app_l_Some. now apply list_lookup_insert_eq.
          + cbn [objWithKind props]. congruence.
        - exists tracedObject. split; [| reflexivity].
          apply lookup_app_l_Some. now rewrite list_lookup_insert_ne. }
      rewrite (findProperty_own st1 t o' _ (PData (VObj es) w e c) Ho')
        by (rewrite Hprops; exact Hmember).
      unfold kindOf, st1, sN, sM. cbn [heap withHeap]. rewrite <- app_assoc.
      rewrite (lookup_app_l_Some _ _ _ (objWithKind set
                                          (KSet (elements ++ [VStr name]))))
        by now apply list_lookup_insert_eq.
      reflexivity.
    + unfold closureOf, kindOf, noop, st1, sN. cbn [heap withHeap].
      rewrite <- app_assoc. rewrite lookup_app_r by lia.
      now rewrite HlenM, Nat.sub_diag.
    + unfold closureOf, kindOf, shim, st1, sN. cbn [heap withHeap].
      rewrite lookup_app_r by (rewrite length_app, HlenM; cbn; lia).
      rewrite length_app, HlenM. cbn [length]. now rewrite Nat.sub_diag.
    + reflexivity.
Qed.

(** ** Member names and event names *)



Lemma substring_0_length s : substring 0 (String.length s) s = s.
Proof. induction s as [| c s IH]; simpl; [reflexivity | now rewrite IH]. Qed.



Lemma toLowerCase_app s t : toLowerCase (s +:+ t) = toLowerCase s +:+ toLowerCase t.
Proof. induction s as [| c s IH]; simpl; [reflexivity | now rewrite IH]. Qed.





Lemma startsWith_on e : startsWith "on" ("on" +:+ e) = true.
Proof. unfold startsWith. simpl. now destruct e. Qed.

(** X14.  Listener members and event names: the member "on" followed by an
    event name is recognised as a listener member and yields that event
    name; a member recognised as a listener member is "on" followed by the
    event name derived from it; any other name is left as it is. *)
Theorem listener_property_event_name :
  (forall e, startsWith "on" ("on" +:+ e) = true /\ stripOn ("on" +:+ e) = e)
  /\ (forall k, startsWith "on" k = true -> "on" +:+ stripOn k = k)
  /\ (forall k, startsWith "on" k = false -> stripOn k = k).
Proof.
  split; [| split].
  - intros e. split; [apply startsWith_on |]. unfold stripOn.
    rewrite startsWith_on.
    change ("on" +:+ e) with (String "o" (String "n" e)).
    cbn [String.length substring Nat.sub].
    replace (String.length e - 0) with (String.length e) by lia.
    apply substring_0_length.
  - intros k H. unfold stripOn. rewrite H.
    unfold startsWith in H.
    destruct k as [| a k]; [discriminate |]. cbn [String.prefix] in H.
    destruct (ascii_dec "o" a) as [<- |]; [| discriminate].
    destruct k as [| b k]; [discriminate |]. cbn [String.prefix] in H.
    destruct (ascii_dec "n" b) as [<- |]; [| discriminate].
    cbn [String.length substring Nat.sub].
    replace (String.length k - 0) with (String.length k) by lia.
    now rewrite substring_0_length.
  - intros k H. unfold stripOn. now rewrite H.
Qed.

(** ** The default logger *)







(** X17.  Records without an outcome.  A Warning record of the engine,
    which has no instance, is printed with [console.warn] as one line that
    starts "TraceAnything: (ID undefined) ".  An Event record is printed
    with [console.debug]; the correlated value is printed, after "=>",
    exactly when the record has a [value] field, even one holding
    undefined. *)
Theorem defaultLogger_warning_and_event :
  (forall ts k className,
      defaultLogger (warningRecord ts k className)
      = Ret (mkConsoleCall ConsoleWarn
               [Text ("TraceAnything: (ID undefined) Unable to trace " +:+ k
                      +:+ " on " +:+ className +:+ " in-place!")]))
  /\ (forall ts traced id className eventName event value,
         exists prefix,
           defaultLogger (eventRecord ts traced id className eventName event value)
           = Ret (mkConsoleCall ConsoleDebug
                    ([Text prefix; Shown event]
                     ++ match value with
                        | Some v => [Text "=>"; shownValue (Some v)]
                        | None => []
                        end))).
Proof.
  split.
  - reflexivity.
  - intros ts traced id className eventName event [v |]; eexists; reflexivity.
Qed.

(** ** Installing a method shim *)

Lemma lookupChain_app_Some n (h h' : list Obj) l k p :
  lookupChain n h l k = Some p ->
  forall m, n <= m -> lookupChain m (h ++ h') l k = Some p.
Proof.
  revert l. induction n as [| n IH]; intros l H m Hm; [discriminate |].
  destruct m as [| m]; [lia |]. cbn [lookupChain] in *.
  destruct (h !! l) as [o |] eqn:Hl; [| discriminate].
  rewrite (lookup_app_l_Some _ _ _ _ Hl).
  destruct (ownProperty (props o) k); [exact H |].
  destruct (proto o); [| discriminate].
  apply IH; [exact H | lia].
Qed.

Lemma findProperty_alloc st o l k p :
  findProperty st (VObj l) k = Some p ->
  findProperty (withHeap (heap st ++ [o]) st) (VObj l) k = Some p.
Proof.
  unfold findProperty. cbn [heap withHeap]. intros H.
  eapply lookupChain_app_Some; [exact H |]. rewrite length_app. lia.
Qed.

Lemma setMember_stores r st t o k x :
  heap st !! t = Some o ->
  (exists old e c, findProperty st (VObj t) k = Some (PData old true e c))
  \/ findProperty st (VObj t) k = None ->
  setMember r (VObj t) k x st
  = (Ret tt, withHeap (<[t := objPut o k (assignedProperty o k x)]> (heap st)) st).
Proof.
  intros Ht Hfind. unfold setMember, assignedProperty, modifyObj. rewrite Ht.
  destruct Hfind as [(old & e & c & ->) | Hnone].
  - destruct (ownProperty (props o) k) as [[? ? ? ? | ? ? ? ?] |]; reflexivity.
  - rewrite Hnone.
    destruct (ownProperty (props o) k) as [p |] eqn:E; [| reflexivity].
    rewrite (findProperty_own _ _ _ _ _ Ht E) in Hnone. discriminate.
Qed.

Lemma shimMethod_installs (r : Handlers) (t : loc) (target : Obj)
    (object : Value) (k className : string) (options : Options) (st : State)
    (original : Value) (w e c : bool) :
  findProperty st object k = Some (PData original w e c) ->
  heap st !! t = Some target ->
  (exists old e' c', findProperty st (VObj t) k = Some (PData old true e' c'))
  \/ (props target = [] /\ proto target = None) ->
  let shim := VObj (length (heap st)) in
  exists st',
    _shimMethod r (VObj t) object k className options st = (Ret tt, st')
    /\ closureOf st' shim = Some (MethodShim original k className options)
    /\ carriesMarker st' shim = true
    /\ findProperty st' (VObj t) k = Some (assignedProperty target k shim)
    /\ logged st' = logged st
    /\ (forall l, l <> t -> l < length (heap st) -> heap st' !! l = heap st !! l)
    /\ (forall r' anyOptions,
           _shimReturnValue r' shim anyOptions st' = (Ret shim, st'))
    /\ (exists target',
           heap st' !! t = Some target'
           /\ ownProperty (props target') k
              = Some (assignedProperty target k shim)).
Proof.
  intros Hmember Ht Hassign shim.
  set (f := length (heap st)).
  set (function := functionObject (MethodShim original k className options)).
  set (sA := withHeap (heap st ++ [function]) st).
  assert (t < f) as Hlt by (eapply lookup_lt_Some; exact Ht).
  assert (heap sA !! t = Some target) as HtA
    by (unfold sA; cbn [heap withHeap]; now apply lookup_app_l_Some).
  assert ((exists old e' c', findProperty sA (VObj t) k = Some (PData old true e' c'))
          \/ findProperty sA (VObj t) k = None) as HassignA.
  { destruct Hassign as [(old & e' & c' & H) | [Hprops Hproto]].
    - left. exists old, e', c'. now apply findProperty_alloc.
    - right. unfold findProperty. cbn [lookupChain]. rewrite HtA, Hprops, Hproto.
      reflexivity. }
  set (target' := objPut target k (assignedProperty target k shim)).
  set (sB := withHeap (<[t := target']> (heap sA)) sA).
  assert (heap sB !! t = Some target') as HtB.
  { unfold sB. cbn [heap withHeap]. apply list_lookup_insert_eq.
    eapply lookup_lt_Some. exact HtA. }
  assert (findProperty sB (VObj t) k = Some (assignedProperty target k shim))
    as HfindB.
  { eapply findProperty_own; [exact HtB |]. unfold target'. cbn [objPut props].
    apply ownProperty_put_eq. }
  assert (heap sB !! f = Some function) as HfB.
  { unfold sB, sA. cbn [heap withHeap]. rewrite list_lookup_insert_ne by lia.
    rewrite lookup_app_r by (unfold f; lia). now rewrite Nat.sub_diag. }
  set (function' := objPut function "__TraceAnything__"
                           (assignedProperty function "__TraceAnything__"
                                             (VBool true))).
  set (st' := withHeap (<[f := function']> (heap sB)) sB).
  assert (heap st' !! f = Some function') as Hf'.
  { unfold st'. cbn [heap withHeap]. apply list_lookup_insert_eq.
    eapply lookup_lt_Some. exact HfB. }
  assert (carriesMarker st' shim = true) as Hmarked.
  { unfold carriesMarker, shim. fold f.
    now rewrite (findProperty_own st' f function' "__TraceAnything__"
                   (PData (VBool true) true true true) Hf' eq_refl). }
  exists st'.
  split; [| split; [| split; [| split; [| split; [| split; [| split]]]]]].
  - unfold _shimMethod.
    rewrite (bind_Ret _ _ _ _ _ (getMember_data r _ _ _ _ _ _ _ Hmember)).
    rewrite (bind_Ret _ _ st shim sA) by reflexivity.
    rewrite (bind_Ret _ _ _ _ _ (setMember_stores r sA t target k shim HtA
                                                  HassignA)).
    fold target' sB.
    assert (getMember r (VObj t) k sB = (Ret shim, sB)) as Hget.
    { unfold assignedProperty in HfindB.
      destruct (ownProperty (props target) k) as [[? ? ? ? | ? ? ? ?] |];
        eapply getMember_data; exact HfindB. }
    rewrite (bind_Ret _ _ _ _ _ Hget).
    unfold shim. fold f.
    rewrite (setMember_stores r sB f function "__TraceAnything__" (VBool true) HfB).
    + reflexivity.
    + right. unfold findProperty. cbn [lookupChain]. now rewrite HfB.
  - unfold closureOf, kindOf, shim. fold f. now rewrite Hf'.
  - exact Hmarked.
  - unfold st'. unfold findProperty in *. cbn [heap withHeap] in *.
    rewrite length_insert.
    cbn [lookupChain] in *. rewrite list_lookup_insert_ne by lia.
    cbn [heap withHeap] in HtB. rewrite HtB in *.
    unfold target' in *. cbn [objPut props] in *.
    now rewrite ownProperty_put_eq in *.
  - reflexivity.
  - intros l Hl Hlen. unfold st', sB, sA. cbn [heap withHeap].
    rewrite !list_lookup_insert_ne by lia.
    now apply lookup_app_l.
  - intros r' anyOptions. now apply shimReturnValue_marked.
  - exists target'. split.
    + unfold st'. cbn [heap withHeap]. rewrite list_lookup_insert_ne by lia.
      exact HtB.
    + unfold target'. cbn [objPut props]. apply ownProperty_put_eq.
Qed.

(** X18.  [_shimMethod] on a member holding a stored function, installed on
    an object where the member can be assigned (it is found there as a
    writable stored value, or the object is a new empty wrapper): the member
    of the traced object becomes a newly made function that closes over the
    original function, and that function carries the "already instrumented"
    marker -- so when such a function is itself returned from a traced
    method, the propagator hands it back untouched.  Nothing is logged, and
    no other object is changed. *)
Theorem shimMethod_installs_marked_shim (r : Handlers) (t : loc) (target : Obj)
    (object : Value) (k className : string) (options : Options) (st : State)
    (original : Value) (w e c : bool) :
  findProperty st object k = Some (PData original w e c) ->
  heap st !! t = Some target ->
  (exists old e' c', findProperty st (VObj t) k = Some (PData old true e' c'))
  \/ (props target = [] /\ proto target = None) ->
  let shim := VObj (length (heap st)) in
  exists st',
    _shimMethod r (VObj t) object k className options st = (Ret tt, st')
    /\ closureOf st' shim = Some (MethodShim original k className options)
    /\ carriesMarker st' shim = true
    /\ findProperty st' (VObj t) k = Some (assignedProperty target k shim)
    /\ logged st' = logged st
    /\ (forall l, l <> t -> l < length (heap st) -> heap st' !! l = heap st !! l)
    /\ (forall r' anyOptions,
           _shimReturnValue r' shim anyOptions st' = (Ret shim, st')).
Proof.
  intros Hmember Ht Hassign shim.
  destruct (shimMethod_installs r t target object k className options st
              original w e c Hmember Ht Hassign)
    as (st' & Hshim & Hclosure & Hmarked & Hfind & Hlog & Hframe & Hback & _).
  exists st'. now repeat split.
Qed.

(** ** The listener wrapper without a correlated member *)

Lemma listenerShim_no_value r traced listener className eventName options
      corresponding this event st id st1 :
  corresponding = CorrNull \/ corresponding = CorrName "" ->
  _getId r traced className options st = (Ret id, st1) ->
  listenerShim r traced listener className eventName options corresponding
               this [event] st
  = forwardEvent r listener this event
      (emit (eventRecord (clock st) traced id className eventName event None) st1).
Proof.
  intros Hcorr Hid. unfold listenerShim. cbn [nth].
  rewrite bind_now, (bind_Ret _ _ _ _ _ Hid).
  destruct Hcorr as [-> | ->]; cbn [truthy String.eqb negb];
    now rewrite bind_ret, bind_logger.
Qed.

(** X19.  A listener wrapper for which no member was found (or the empty
    name was configured) emits one Event record without a [value] field and
    then forwards the event: to the listener itself, called on the wrapper's
    receiver with the event, when the listener has no [handleEvent] member;
    to the listener's stored [handleEvent] function otherwise -- called on
    the wrapper's receiver, not on the listener object.  The wrapper's
    outcome is the outcome of the forwarded call. *)
Theorem listener_wrapper_forwards (n : nat) (shim traced listener this event : Value)
    (className eventName : string) (options : Options)
    (corresponding : Corresponding) (st st1 : State) (id : Value) :
  closureOf st shim
  = Some (ListenerShim traced listener className eventName options corresponding) ->
  corresponding = CorrNull \/ corresponding = CorrName "" ->
  _getId (handlers native n) traced className options st = (Ret id, st1) ->
  let st2 := emit (eventRecord (clock st) traced id className eventName event
                               None) st1 in
  (forall l,
      listener = VObj l ->
      findProperty st2 listener "handleEvent" = None ->
      call native (S n) shim this [event] st
      = call native n listener this [event] st2)
  /\ (forall handleEvent w e c,
         findProperty st2 listener "handleEvent"
         = Some (PData handleEvent w e c) ->
         truthy handleEvent = true ->
         call native (S n) shim this [event] st
         = call native n handleEvent this [event] st2).
Proof.
  intros Hshim Hcorr Hid st2.
  assert (call native (S n) shim this [event] st
          = forwardEvent (handlers native n) listener this event st2) as Hcall.
  { rewrite (call_closure _ _ _ _ _ _ Hshim). cbn [applyClosure].
    now apply listenerShim_no_value. }
  split.
  - intros l -> Hnone. rewrite Hcall. unfold forwardEvent.
    assert (getMember (handlers native n) (VObj l) "handleEvent" st2
            = (Ret VUndefined, st2)) as Hget.
    { unfold getMember. rewrite Hnone.
      destruct (kindOf st2 (VObj l)) as [[| | | |] |]; reflexivity. }
    now rewrite (bind_Ret _ _ _ _ _ Hget).
  - intros handleEvent w e c Hfound Htruthy. rewrite Hcall. unfold forwardEvent.
    pose proof (getMember_data (handlers native n) _ _ _ _ _ _ _ Hfound) as Hget.
    rewrite (bind_Ret _ _ _ _ _ Hget), Htruthy.
    now rewrite (bind_Ret _ _ _ _ _ Hget).
Qed.

(** ** Members that hold a promise *)

Lemma promiseEvent_logs r traced k className options suffix field v st id st1 :
  _getId r traced className options st = (Ret id, st1) ->
  promiseEvent r traced k className options suffix field [v] st
  = (Ret VUndefined,
     emit (eventRecord (clock st) traced id className (k +:+ suffix)
                       (VObj (length (heap st1))) None)
          (withHeap (heap st1 ++ [mkObj None [(field, PData v true true true)]
                                        KPlain]) st1)).
Proof.
  intros Hid. unfold promiseEvent. cbn [nth].
  rewrite bind_now, (bind_Ret _ _ _ _ _ Hid).
  erewrite bind_Ret; [| reflexivity].
  now rewrite bind_logger.
Qed.

(** X20.  A member that holds a pending promise, when properties are traced
    and promise members are treated as events, is not replaced by any shim:
    [_shimMember] only registers two observers on the promise, logs nothing
    and changes no other object, so a wrapper gets no such member.  When the
    promise succeeds with [v], the first observer emits one Event record
    named "<member> Promise resolved" whose payload is a new object
    [{result: v}]; when it fails with [e], the second emits one named
    "<member> Promise rejected" with payload [{threw: e}]. *)
Theorem promise_member_observed (n : nat) (traced object : Value)
    (k className : string) (options : Options) (st : State) (p : loc) (o : Obj)
    (rs : list Reaction) (w e c : bool) :
  properties options = true ->
  treatPromisePropertiesAsEvents options = true ->
  findProperty st object k = Some (PData (VObj p) w e c) ->
  heap st !! p = Some o ->
  nativePromise o (Pending rs) ->
  let resolved := VObj (length (heap st)) in
  let rejected := VObj (length (heap st) + 1) in
  exists st',
    _shimMember (handlers native (S n)) traced object k className options st
    = (Ret tt, st')
    /\ logged st' = logged st
    /\ promiseState st' p
       = Some (Pending (rs ++ [mkReaction resolved rejected
                                          (length (heap st) + 2)]))
    /\ (forall l, l <> p -> l < length (heap st) -> heap st' !! l = heap st !! l)
    /\ (forall m s v id s1,
           closureOf s resolved = closureOf st' resolved ->
           _getId (handlers native m) traced className options s = (Ret id, s1) ->
           exists s2,
             call native (S m) resolved VUndefined [v] s = (Ret VUndefined, s2)
             /\ logged s2
                = logged s1 ++ [eventRecord (clock s) traced id className
                                            (k +:+ " Promise resolved")
                                            (VObj (length (heap s1))) None]
             /\ heap s2 !! length (heap s1)
                = Some (mkObj None [("result", PData v true true true)] KPlain))
    /\ (forall m s x id s1,
           closureOf s rejected = closureOf st' rejected ->
           _getId (handlers native m) traced className options s = (Ret id, s1) ->
           exists s2,
             call native (S m) rejected VUndefined [x] s = (Ret VUndefined, s2)
             /\ logged s2
                = logged s1 ++ [eventRecord (clock s) traced id className
                                            (k +:+ " Promise rejected")
                                            (VObj (length (heap s1))) None]
             /\ heap s2 !! length (heap s1)
                = Some (mkObj None [("threw", PData x true true true)] KPlain)).
Proof.
  intros Hprops Htreat Hmember Hp Hnative resolved rejected.
  set (len := length (heap st)).
  set (new := [functionObject (PromiseResolved traced k className options);
               functionObject (PromiseRejected traced k className options);
               promiseObject (Pending [])]).
  set (st' := withHeap
                (<[p := objWithKind o
                          (KPromise (Pending (rs ++ [mkReaction resolved rejected
                                                                (len + 2)])))]>
                   (heap st ++ new)) st).
  assert (p < len) as Hlt by (eapply lookup_lt_Some; exact Hp).
  pose proof (getMember_data (handlers native (S n)) _ _ _ _ _ _ _ Hmember) as Hget.
  pose proof Hnative as (Hproto & Hown & Hkind).
  assert (_shimPromiseProperty (handlers native (S n)) traced object k className
                               options st = (Ret tt, st')) as Hshim.
  { unfold _shimPromiseProperty.
    rewrite (bind_Ret _ _ _ _ _ Hget).
    rewrite (bind_Ret _ _ _ _ _ (getMember_then _ _ _ _ _ Hp Hnative)).
    erewrite bind_Ret; [| reflexivity].
    erewrite bind_Ret; [| reflexivity].
    cbn [heap withHeap].
    erewrite bind_Ret; [reflexivity |].
    cbn [callOf handlers dispatch]. unfold promiseThen. cbn [nth].
    assert (((heap st ++ [functionObject
                            (PromiseResolved traced k className options)])
             ++ [functionObject (PromiseRejected traced k className options)])
              !! p = Some o) as HpB.
    { rewrite <- app_assoc. now apply lookup_app_l_Some. }
    unfold functionObject in HpB.
    erewrite promiseState_lookup; [| cbn [heap withHeap]; exact HpB | exact Hkind].
    unfold allocPromise, alloc. unfold bind at 1 2.
    unfold modifyObj. cbn [heap withHeap].
    rewrite (lookup_app_l_Some _ _ _ _ HpB).
    unfold ret. f_equal. unfold st', new, resolved, rejected, len, withHeap.
    cbn [heap _shimmedClasses _nextGeneratedId clock logged jobs].
    rewrite !length_app. cbn [length]. rewrite <- !app_assoc. cbn [app].
    rewrite <- !Nat.add_assoc. cbn [Nat.add].
    destruct st; reflexivity. }
  assert (forall i x, new !! i = Some x -> heap st' !! (len + i) = Some x) as Hnew.
  { intros i x Hi. unfold st'. cbn [heap withHeap].
    rewrite list_lookup_insert_ne by lia.
    rewrite lookup_app_r by (unfold len; lia).
    replace (len + i - length (heap st)) with i by (unfold len; lia).
    exact Hi. }
  exists st'. split; [| split; [| split; [| split; [| split]]]].
  - unfold _shimMember. rewrite (bind_Ret _ _ _ _ _ Hget).
    assert (isFunction (VObj p) st = (Ret false, st)) as Hfun.
    { unfold isFunction, isFunctionIn, closureOf, kindOf. rewrite Hp.
      cbn. now rewrite Hkind. }
    rewrite (bind_Ret _ _ _ _ _ Hfun). cbn iota.
    rewrite Hprops, Htreat. cbn [andb].
    erewrite bind_Ret.
    2:{ rewrite (bind_Ret _ _ _ _ _ Hget). cbn [truthy].
        rewrite (bind_Ret _ _ _ _ _ Hget).
        rewrite (bind_Ret _ _ _ _ _ (getMember_then _ _ _ _ _ Hp Hnative)).
        reflexivity. }
    cbn [truthy]. exact Hshim.
  - reflexivity.
  - unfold promiseState, kindOf, st'. cbn [heap withHeap].
    rewrite list_lookup_insert_eq by (rewrite length_app; lia). reflexivity.
  - intros l Hl Hlen. unfold st'. cbn [heap withHeap].
    rewrite list_lookup_insert_ne by congruence. now apply lookup_app_l.
  - intros m s v id s1 Hsame Hid.
    assert (closureOf st' resolved
            = Some (PromiseResolved traced k className options)) as Hc.
    { unfold closureOf, kindOf, resolved. fold len.
      replace len with (len + 0) by lia. now rewrite (Hnew 0 _ eq_refl). }
    rewrite Hc in Hsame. rewrite (call_closure _ _ _ _ _ _ Hsame).
    cbn [applyClosure]. rewrite (promiseEvent_logs _ _ _ _ _ _ _ _ _ _ _ Hid).
    eexists. split; [reflexivity |]. split; [reflexivity |].
    cbn [heap emit withLogged withHeap].
    rewrite lookup_app_r by lia. now rewrite Nat.sub_diag.
  - intros m s x id s1 Hsame Hid.
    assert (closureOf st' rejected
            = Some (PromiseRejected traced k className options)) as Hc.
    { unfold closureOf, kindOf, rejected. fold len.
      now rewrite (Hnew 1 _ eq_refl). }
    rewrite Hc in Hsame. rewrite (call_closure _ _ _ _ _ _ Hsame).
    cbn [applyClosure]. rewrite (promiseEvent_logs _ _ _ _ _ _ _ _ _ _ _ Hid).
    eexists. split; [reflexivity |]. split; [reflexivity |].
    cbn [heap emit withLogged withHeap].
    rewrite lookup_app_r by lia. now rewrite Nat.sub_diag.
Qed.

(** ** The replacement constructor when instrumenting fails *)

(** X21.  The [catch] of the replacement constructor covers more than the
    original constructor.  If the original constructs an object and
    [traceObject] then throws, one Constructor record with the error and no
    instance is emitted and the error is thrown, as if the constructor had
    failed.  If [traceObject] succeeds and the identity lookup throws, the
    one record emitted carries the instrumented instance and the error, but
    neither [instanceId] nor [result]. *)
Theorem replacement_constructor_instrumentation_failure (n : nat)
    (f ctor this : Value) (options : Options) (args : list Value)
    (st st1 st2 : State) (name original : Value) :
  closureOf st f = Some (ReplacementConstructor ctor options) ->
  getMember (handlers native n) ctor "name" st = (Ret name, st1) ->
  construct (handlers native n) ctor args st1 = (Ret original, st2) ->
  (forall error st3,
      traceObject (handlers native n) original (complete options) st2
      = (Throw error, st3) ->
      call native (S n) f this args st
      = (Throw error,
         emit (failureRecord (clock st1) (clock st3) (toString name) args error)
              st3))
  /\ (forall traced st3 error st4,
         traceObject (handlers native n) original (complete options) st2
         = (Ret traced, st3) ->
         _getId (handlers native n) traced (toString name) options st3
         = (Throw error, st4) ->
         exists record,
           call native (S n) f this args st = (Throw error, emit record st4)
           /\ Log.type record = Constructor
           /\ Log.instance record = Some traced
           /\ Log.threw record = Some error
           /\ Log.instanceId record = None
           /\ Log.result record = None).
Proof.
  intros Hf Hname Hnew. split.
  - intros error st3 Htrace.
    rewrite (call_closure _ _ _ _ _ _ Hf). cbn [applyClosure].
    unfold replacementConstructor.
    rewrite (bind_Ret _ _ _ _ _ Hname), bind_now.
    erewrite bind_Throw; [reflexivity |].
    erewrite tryCatch_Throw.
    2:{ rewrite (bind_Ret _ _ _ _ _ Hnew).
        erewrite bind_Throw; [reflexivity | exact Htrace]. }
    reflexivity.
  - intros traced st3 error st4 Htrace Hid.
    rewrite (call_closure _ _ _ _ _ _ Hf). cbn [applyClosure].
    unfold replacementConstructor.
    rewrite (bind_Ret _ _ _ _ _ Hname), bind_now.
    erewrite bind_Ret.
    2:{ erewrite tryCatch_Ret; [reflexivity |].
        rewrite (bind_Ret _ _ _ _ _ Hnew), (bind_Ret _ _ _ _ _ Htrace).
        reflexivity. }
    cbn [fst snd].
    erewrite tryCatch_Throw; [| erewrite bind_Throw; [reflexivity | exact Hid]].
    eexists. split; [reflexivity |]. now repeat split.
Qed.

(** ** traceMember *)

Lemma shimMember_method r traced object k className options st original w e c :
  methods options = true ->
  findProperty st object k = Some (PData original w e c) ->
  isFunctionIn st original = true ->
  _shimMember r traced object k className options st
  = _shimMethod r traced object k className options st.
Proof.
  intros Hmethods Hmember Hfun. unfold _shimMember.
  rewrite (bind_Ret _ _ _ _ _ (getMember_data r _ _ _ _ _ _ _ Hmember)).
  unfold bind at 1. unfold isFunction at 1. now rewrite Hfun, Hmethods.
Qed.

Lemma isFunctionIn_alloc st v o :
  isFunctionIn st v = true ->
  isFunctionIn (withHeap (heap st ++ [o]) st) v = true.
Proof.
  unfold isFunctionIn, closureOf, kindOf. destruct v; try (intros; assumption).
  cbn [heap withHeap]. destruct (heap st !! l) as [x |] eqn:E; [| discriminate].
  now rewrite (lookup_app_l_Some _ _ _ _ E).
Qed.

(** X22.  [traceMember] on a method (a member holding a stored function,
    methods traced) of an object whose class name is stored on its
    prototype's constructor.  In place, it replaces the object's member by a
    new marked method shim over the original function and returns that
    shim.  With [inPlace] false it returns such a shim too, but installs it
    on a wrapper that is dropped: the object itself is left exactly as it
    was.  Nothing is logged either way. *)
Theorem traceMember_returns_method_shim (r : Handlers) (l prototype : loc)
    (o : Obj) (ctor name original : Value) (k : string) (opts : PartialOptions)
    (st : State) (w e c w1 e1 c1 w2 e2 c2 : bool) :
  let options := assign defaultOptions opts in
  methods options = true ->
  heap st !! l = Some o ->
  proto o = Some prototype ->
  findProperty st (VObj prototype) "constructor" = Some (PData ctor w1 e1 c1) ->
  findProperty st ctor "name" = Some (PData name w2 e2 c2) ->
  findProperty st (VObj l) k = Some (PData original w e c) ->
  isFunctionIn st original = true ->
  (inPlace options = true ->
   w = true ->
   let shim := VObj (length (heap st)) in
   exists st',
     traceMember r (VObj l) k opts st = (Ret shim, st')
     /\ closureOf st' shim = Some (MethodShim original k (toString name) options)
     /\ carriesMarker st' shim = true
     /\ findProperty st' (VObj l) k = Some (assignedProperty o k shim)
     /\ logged st' = logged st)
  /\ (inPlace options = false ->
      let shim := VObj (length (heap st) + 1) in
      exists st',
        traceMember r (VObj l) k opts st = (Ret shim, st')
        /\ closureOf st' shim
           = Some (MethodShim original k (toString name) options)
        /\ carriesMarker st' shim = true
        /\ (forall x, x < length (heap st) -> heap st' !! x = heap st !! x)
        /\ logged st' = logged st).
Proof.
  intros options Hmethods Hl Hproto Hctor Hname Hmember Hfun.
  assert (getPrototypeOf (VObj l) st = (Ret (Some (VObj prototype)), st)) as Hp.
  { unfold getPrototypeOf. now rewrite Hl, Hproto. }
  split.
  - intros Hin -> shim.
    destruct (shimMethod_installs r l o (VObj l) k (toString name) options st
                original true e c Hmember Hl)
      as (st' & Hshim & Hclosure & Hmarked & Hfind & Hlog & _).
    { left. now exists original, e, c. }
    exists st'. split; [| now repeat split].
    unfold traceMember. fold options.
    rewrite (bind_Ret _ _ _ _ _ Hp).
    rewrite (bind_Ret _ _ _ _ _ (getMember_data r _ _ _ _ _ _ _ Hctor)).
    rewrite Hin, bind_ret.
    rewrite (bind_Ret _ _ _ _ _ (getMember_data r _ _ _ _ _ _ _ Hname)).
    rewrite <- (shimMember_method _ _ _ _ _ _ _ _ _ _ _ Hmethods Hmember Hfun)
      in Hshim.
    rewrite (bind_Ret _ _ _ _ _ Hshim).
    unfold assignedProperty in Hfind.
    destruct (ownProperty (props o) k) as [[? ? ? ? | ? ? ? ?] |];
      eapply getMember_data; exact Hfind.
  - intros Hin shim.
    set (wrapper := mkObj None [] KPlain).
    set (sW := withHeap (heap st ++ [wrapper]) st).
    assert (heap sW !! length (heap st) = Some wrapper) as Hw.
    { unfold sW. cbn [heap withHeap]. rewrite lookup_app_r by lia.
      now rewrite Nat.sub_diag. }
    pose proof (findProperty_alloc st wrapper _ _ _ Hmember) as HmemberW.
    fold sW in HmemberW.
    destruct (shimMethod_installs r (length (heap st)) wrapper (VObj l) k
                (toString name) options sW original w e c HmemberW Hw)
      as (st' & Hshim & Hclosure & Hmarked & Hfind & Hlog & Hframe & _).
    { right. now split. }
    assert (length (heap sW) = length (heap st) + 1) as Hlen
      by (unfold sW; cbn [heap withHeap]; rewrite length_app; reflexivity).
    rewrite Hlen in *.
    exists st'. split; [| split; [exact Hclosure |]; split; [exact Hmarked |];
                          split; [| exact Hlog]].
    + unfold traceMember. fold options.
      rewrite (bind_Ret _ _ _ _ _ Hp).
      rewrite (bind_Ret _ _ _ _ _ (getMember_data r _ _ _ _ _ _ _ Hctor)).
      rewrite Hin.
      rewrite (bind_Ret _ _ st (VObj (length (heap st))) sW) by reflexivity.
      destruct ctor as [| | | | | lc |]; try discriminate.
      pose proof (findProperty_alloc st wrapper _ _ _ Hname) as HnameW.
      fold sW in HnameW.
      rewrite (bind_Ret _ _ _ _ _ (getMember_data r _ _ _ _ _ _ _ HnameW)).
      rewrite <- (shimMember_method _ _ _ _ _ _ _ _ _ _ _ Hmethods HmemberW
                                    (isFunctionIn_alloc _ _ _ Hfun)) in Hshim.
      rewrite (bind_Ret _ _ _ _ _ Hshim).
      eapply getMember_data. exact Hfind.
    + intros x Hx. rewrite Hframe by lia.
      unfold sW. cbn [heap withHeap]. now apply lookup_app_l.
Qed.

(** ** tracePrototype *)

(** X23.  [tracePrototype] in place, on a method found on the class's
    prototype as a writable stored function: the prototype's member becomes
    a new marked method shim over the original function, which is what the
    call returns, and every object that has this prototype and no member of
    that name of its own now finds the shim under the name -- objects made
    before the call as much as later ones.  Nothing is logged. *)
Theorem tracePrototype_reaches_instances (r : Handlers) (ctor : Value)
    (prototype : loc) (po : Obj) (name original : Value) (k : string)
    (opts : PartialOptions) (st : State) (e c w1 e1 c1 w2 e2 c2 : bool) :
  let options := assign defaultOptions opts in
  inPlace options = true ->
  methods options = true ->
  findProperty st ctor "prototype" = Some (PData (VObj prototype) w1 e1 c1) ->
  findProperty st ctor "name" = Some (PData name w2 e2 c2) ->
  heap st !! prototype = Some po ->
  findProperty st (VObj prototype) k = Some (PData original true e c) ->
  isFunctionIn st original = true ->
  let shim := VObj (length (heap st)) in
  exists st',
    tracePrototype r ctor k opts st = (Ret shim, st')
    /\ closureOf st' shim = Some (MethodShim original k (toString name) options)
    /\ carriesMarker st' shim = true
    /\ (forall i oi,
           heap st !! i = Some oi ->
           proto oi = Some prototype ->
           ownProperty (props oi) k = None ->
           findProperty st' (VObj i) k = Some (assignedProperty po k shim))
    /\ logged st' = logged st.
Proof.
  intros options Hin Hmethods Hproto Hname Hpo Hmember Hfun shim.
  destruct (shimMethod_installs r prototype po (VObj prototype) k
              (toString name) options st original true e c Hmember Hpo)
    as (st' & Hshim & Hclosure & Hmarked & Hfind & Hlog & Hframe & _
        & target' & Ht' & Hown).
  { left. now exists original, e, c. }
  rewrite <- (shimMember_method _ _ _ _ _ _ _ _ _ _ _ Hmethods Hmember Hfun)
    in Hshim.
  exists st'. split; [| split; [exact Hclosure |]; split; [exact Hmarked |];
                        split; [| exact Hlog]].
  - unfold tracePrototype. fold options. rewrite Hin.
    rewrite (bind_Ret _ _ _ _ _ (getMember_data r _ _ _ _ _ _ _ Hproto)).
    rewrite (bind_Ret _ _ _ _ _ (getMember_data r _ _ _ _ _ _ _ Hproto)).
    rewrite (bind_Ret _ _ _ _ _ (getMember_data r _ _ _ _ _ _ _ Hname)).
    rewrite (bind_Ret _ _ _ _ _ Hshim).
    unfold assignedProperty in Hfind.
    destruct (ownProperty (props po) k) as [[? ? ? ? | ? ? ? ?] |];
      eapply getMember_data; exact Hfind.
  - intros i oi Hi Hpi Hnone.
    destruct (decide (i = prototype)) as [-> | Hne]; [exact Hfind |].
    assert (heap st' !! i = Some oi) as Hi'.
    { rewrite Hframe; [exact Hi | exact Hne | eapply lookup_lt_Some; exact Hi]. }
    unfold findProperty. cbn [lookupChain]. rewrite Hi', Hnone, Hpi.
    destruct (length (heap st')) as [| n] eqn:Hlen.
    + apply lookup_lt_Some in Ht'. lia.
    + cbn [lookupChain]. now rewrite Ht', Hown.
Qed.
End Properties.

(** ** The theorems on the sample application *)

(** C4, on the sample application: tracing the traced player again. *)
Lemma traceObject_idempotent_witness :
  carriesMarker (snd tracedPlayer) (VObj 10) = true
  /\ traceObject noCalls (VObj 10) noOptions (snd tracedPlayer)
     = (Ret (VObj 10), snd tracedPlayer).
Proof.
  split; [vm_compute; reflexivity |].
  apply (traceObject_idempotent noCalls (VObj 10) noOptions (snd tracedPlayer)).
  vm_compute; reflexivity.
Defined.

(** C3 (amended), on the sample application: [new Player()] through the
    replacement constructor, in place. *)
Lemma replacement_constructor_records_witness :
  exists st',
    call sampleNative 9 (VObj 10) VUndefined [] classState
    = (Ret (VObj 11), st')
    /\ map Log.result (logged st') = [Some (VObj 11)]
    /\ map Log.instance (logged st') = [Some (VObj 11)].
Proof.
  pose (st2 := snd (construct (handlers sampleNative 8) (VObj Player) []
                              classState)).
  pose (st3 := snd (traceObject (handlers sampleNative 8) (VObj 11)
                                (complete defaultOptions) st2)).
  pose (st4 := snd (_getId (handlers sampleNative 8) (VObj 11) "Player"
                           defaultOptions st3)).
  assert (closureOf classState (VObj 10)
          = Some (ReplacementConstructor (VObj Player) defaultOptions)) as Hf
    by (vm_compute; reflexivity).
  assert (getMember (handlers sampleNative 8) (VObj Player) "name" classState
          = (Ret (VStr "Player"), classState)) as Hname
    by (vm_compute; reflexivity).
  destruct (replacement_constructor_records sampleNative 8 (VObj 10) (VObj Player)
              VUndefined defaultOptions [] classState classState (VStr "Player")
              Hf Hname) as [Hsuccess _].
  destruct (Hsuccess (VObj 11) st2 (VObj 11) st3 (VStr "Player_1") st4)
    as [Hcall _]; [vm_compute; reflexivity .. |].
  eexists. split; [exact Hcall |]. split; vm_compute; reflexivity.
Defined.

(** C3 as stated fails in wrapper mode: the record's [result] is the
    object the original constructor produced (location 11), while the
    instrumented instance returned to the caller is the wrapper (12). *)
Lemma constructor_result_counterexample :
  exists st' record,
    call sampleNative 9 (VObj 10) VUndefined [] wrapperClassState
    = (Ret (VObj 12), st')
    /\ logged st' = [record]
    /\ Log.type record = Constructor
    /\ Log.instance record = Some (VObj 12)
    /\ Log.result record = Some (VObj 11)
    /\ Log.result record <> Some (VObj 12).
Proof.
  eexists _, _. split; [vm_compute; reflexivity |].
  split; [reflexivity |]. repeat split. discriminate.
Qed.

(** C10, on the sample application: [new Broken(1)] through its replacement
    constructor. *)
Lemma constructor_failure_names_no_instance_witness :
  exists st' record,
    call sampleNative 9 (VObj 10) VUndefined [VNum 1] brokenClassState
    = (Throw (VStr "nope"), st')
    /\ logged st' = [record]
    /\ Log.type record = Constructor
    /\ Log.className record = Some "Broken"
    /\ Log.args record = Some [VNum 1]
    /\ Log.threw record = Some (VStr "nope")
    /\ Log.instance record = None
    /\ Log.instanceId record = None
    /\ Log.result record = None.
Proof.
  pose (st2 := snd (construct (handlers sampleNative 8) (VObj Broken) [VNum 1]
                              brokenClassState)).
  assert (closureOf brokenClassState (VObj 10)
          = Some (ReplacementConstructor (VObj Broken) defaultOptions)) as Hf
    by (vm_compute; reflexivity).
  assert (getMember (handlers sampleNative 8) (VObj Broken) "name"
                    brokenClassState
          = (Ret (VStr "Broken"), brokenClassState)) as Hname
    by (vm_compute; reflexivity).
  assert (construct (handlers sampleNative 8) (VObj Broken) [VNum 1]
                    brokenClassState
          = (Throw (VStr "nope"), st2)) as Hnew
    by (vm_compute; reflexivity).
  destruct (constructor_failure_names_no_instance sampleNative 8 (VObj 10)
              (VObj Broken) VUndefined defaultOptions [VNum 1] brokenClassState
              brokenClassState st2 (VStr "Broken") (VStr "nope")
              Hf Hname Hnew)
    as (record & Hcall & Hty & Hclass & Hargs & Hthrew & _ & Hinst & Hid & Hres).
  exists (withLogged (logged st2 ++ [record]) st2), record.
  repeat split; assumption.
Defined.

(** C6, on the sample application: [player.fail()] on the traced player,
    whose [fail] is the method shim at location 17. *)
Lemma method_shim_rethrows_witness :
  exists record,
    call sampleNative 3 (VObj 17) (VObj 10) [] (snd tracedPlayer)
    = (Throw (VStr "boom"), emit record (snd tracedPlayer))
    /\ Log.type record = Method
    /\ Log.methodName record = Some "fail"
    /\ Log.args record = Some []
    /\ Log.threw record = Some (VStr "boom")
    /\ Log.result record = None.
Proof.
  apply (method_shim_rethrows sampleNative 2 (VObj 17) (VObj 3) (VObj 10) "fail"
           "Player" defaultOptions [] (snd tracedPlayer) (snd tracedPlayer)
           (snd tracedPlayer) (VStr "Player_1") (VStr "boom"));
    vm_compute; reflexivity.
Defined.

(** C8, on the sample application: the first two players are named
    [Player_1] and [Player_2]. *)
Lemma generated_identity_stable_witness :
  exists st1 st2,
    _getId noCalls (VObj 10) "Player" defaultOptions twoPlayers
    = (Ret (VStr "Player_1"), st1)
    /\ _getId noCalls (VObj 10) "Player" defaultOptions st1
       = (Ret (VStr "Player_1"), st1)
    /\ _getId noCalls (VObj 11) "Player" defaultOptions st1
       = (Ret (VStr "Player_2"), st2).
Proof.
  destruct (generated_identity_stable noCalls 10 untracedPlayer "Player"
              defaultOptions twoPlayers)
    as (st1 & Hfirst & _ & _ & _ & Hstable & Hnext);
    [vm_compute; reflexivity .. |].
  pose proof Hfirst as E. vm_compute in E. injection E as E. subst st1.
  destruct (Hnext noCalls 11 untracedPlayer) as (st2 & Hsecond & _);
    [lia | vm_compute; reflexivity ..|].
  eexists _, st2. split; [exact Hfirst |]. split; [apply Hstable | exact Hsecond].
Defined.






(** ** The further properties on concrete inputs *)

(** X1, on an object with a stored [id]. *)
Lemma getId_follows_idProperty_witness :
  _getId noCalls (VObj 0) "Thing" defaultOptions idValueState
  = (Ret (VStr "main"), idValueState)
  /\ exists st',
       setMember noCalls (VObj 0) "id" (VStr "side") idValueState = (Ret tt, st')
       /\ _getId noCalls (VObj 0) "Thing" defaultOptions st'
          = (Ret (VStr "side"), st').
Proof.
  destruct (getId_follows_idProperty noCalls 0
              (mkObj None [("id", PData (VStr "main") true true true)] KPlain)
              "Thing" "id" defaultOptions idValueState (VStr "main") true true)
    as [Hnow Hlater]; [reflexivity | discriminate | reflexivity | reflexivity |].
  split; [exact Hnow |].
  destruct (Hlater (VStr "side")) as (st' & Hset & Hget & _).
  exists st'. now split.
Defined.

(** X2, on an object whose accessor [id] was shimmed. *)
Lemma getId_through_traced_accessor_diverges_witness :
  _getId (handlers sampleNative 50) (VObj 0) "Thing" defaultOptions
         idAccessorState
  = (OutOfFuel, idAccessorState).
Proof.
  apply (getId_through_traced_accessor_diverges sampleNative 50 (VObj 0) (VObj 1)
           (VObj 2) VUndefined "Thing" "id" defaultOptions idAccessorState
           true true);
    [reflexivity | discriminate | reflexivity | reflexivity].
Defined.

(** X4, on the sample application: a host-made player returned from a method
    configured with other options is traced with the options of its class. *)
Lemma registered_instance_uses_class_options_witness :
  _shimReturnValue (handlers sampleNative 8) (VObj 11) exploringOptions
                   hostPlayerState
  = traceObject (handlers sampleNative 8) (VObj 11) (complete defaultOptions)
                hostPlayerState
  /\ carriesMarker
       (snd (_shimReturnValue (handlers sampleNative 8) (VObj 11)
                              exploringOptions hostPlayerState))
       (VObj 11) = true.
Proof.
  split; [| vm_compute; reflexivity].
  apply (registered_instance_uses_class_options (handlers sampleNative 8) 11
           PlayerPrototype untracedPlayer (VObj Player) defaultOptions
           exploringOptions hostPlayerState true false true);
    vm_compute; reflexivity.
Defined.

(** X5, on the sample application: a number under the default options, and
    an untraced player of an unregistered class with a field to explore that
    it does not have. *)
Lemma shimReturnValue_passthrough_witness :
  _shimReturnValue noCalls (VNum 3) defaultOptions twoPlayers
  = (Ret (VNum 3), twoPlayers)
  /\ _shimReturnValue noCalls (VObj 10) exploringOptions twoPlayers
     = (Ret (VObj 10), twoPlayers).
Proof.
  split.
  - destruct (shimReturnValue_passthrough noCalls defaultOptions twoPlayers)
      as [Hprimitive _].
    apply Hprimitive; [discriminate | reflexivity].
  - destruct (shimReturnValue_passthrough noCalls exploringOptions twoPlayers)
      as [_ Hobject].
    apply (Hobject 10 untracedPlayer PlayerPrototype (VObj Player) true false true);
      try (vm_compute; reflexivity).
    intros k [<- | []]. vm_compute; reflexivity.
Defined.

(** X6, on the sample application: [player.echo(3)] with a field to explore
    configured throws, after logging the return and then the error. *)
Lemma method_shim_reports_propagator_failure_witness :
  exists st',
    call sampleNative 4 (VObj 18) (VObj 10) [VNum 3] exploringPlayer
    = (Throw TypeError, st')
    /\ map Log.result (logged st') = [Some (VNum 3); None]
    /\ map Log.threw (logged st') = [None; Some TypeError].
Proof.
  destruct (method_shim_reports_propagator_failure sampleNative 2 (VObj 18)
              (VObj 4) (VObj 10) "echo" "Player" exploringOptions [VNum 3]
              exploringPlayer exploringPlayer exploringPlayer (VStr "Player_1")
              (VNum 3)) as [_ Hprimitive];
    [vm_compute; reflexivity .. |].
  eexists. split.
  - apply (Hprimitive "data" []); [reflexivity | left; now exists 3%Z].
  - split; vm_compute; reflexivity.
Defined.


(** X8, on the sample application: [volume] of the first player, shimmed in
    place, read, set to 9 and read again. *)
Lemma stored_member_round_trip_witness :
  exists st' st'',
    _shimProperty (handlers sampleNative 2) (VObj 10) (VObj 10) "volume" "Player"
                  defaultOptions identifiedPlayerState
    = (Ret tt, st')
    /\ getMember (handlers sampleNative 3) (VObj 10) "volume" st'
       = (Ret (VNum 7), st')
    /\ setMember (handlers sampleNative 3) (VObj 10) "volume" (VNum 9) st'
       = (Ret tt, st'')
    /\ map Log.value (logged st'') = [Some (LVOne (VNum 9))]
    /\ getMember (handlers sampleNative 3) (VObj 10) "volume" st''
       = (Ret (VNum 9), st'').
Proof.
  destruct (stored_member_round_trip sampleNative 2 10 identifiedPlayer (VObj 10)
              "volume" "Player" defaultOptions identifiedPlayerState (VNum 7)
              true true)
    as (st' & Hshim & _ & Hread & Hwrite);
    [vm_compute; reflexivity .. | reflexivity |].
  pose proof Hshim as E. vm_compute in E. injection E as E. subst st'.
  destruct (Hwrite (VNum 9) (VStr "Player_1")) as (st'' & Hset & Hlog & Hback & _);
    [vm_compute; reflexivity |].
  eexists _, st''. split; [exact Hshim |]. split; [exact Hread |].
  split; [exact Hset |]. split; [| exact Hback].
  rewrite Hlog. vm_compute. reflexivity.
Defined.

(** X9: the member [version] cannot be written, before or after. *)
Lemma readonly_member_stays_readonly_witness :
  exists st',
    _shimProperty (handlers sampleNative 2) (VObj 0) (VObj 0) "version" "Object"
                  defaultOptions settingsState
    = (Ret tt, st')
    /\ getMember (handlers sampleNative 3) (VObj 0) "version" st'
       = (Ret (VNum 1), st')
    /\ setMember noCalls (VObj 0) "version" (VNum 2) st' = (Throw TypeError, st').
Proof.
  destruct (readonly_member_stays_readonly sampleNative 2 0 settings (VObj 0)
              "version" "Object" defaultOptions settingsState (VNum 1) true true)
    as (st' & Hshim & _ & Hread & Hwrite);
    [reflexivity | reflexivity | reflexivity | reflexivity |].
  exists st'. split; [exact Hshim |]. split; [exact Hread | apply Hwrite].
Defined.

(** X10: [fixed] cannot be reconfigured, and [later] does not exist. *)
Lemma property_shim_declines_witness :
  _shimProperty noCalls (VObj 0) (VObj 0) "fixed" "Object" defaultOptions
                settingsState
  = (Ret tt, emit (warningRecord 5 "fixed" "Object") settingsState)
  /\ _shimMember noCalls (VObj 0) (VObj 0) "later" "Object" defaultOptions
                 settingsState
     = (Throw TypeError, settingsState).
Proof.
  split.
  - destruct (property_shim_declines noCalls (VObj 0) "fixed" "Object"
                defaultOptions settingsState) as [Hwarn _].
    apply (Hwarn (VObj 0) (PData (VNum 2) true true false)); reflexivity.
  - destruct (property_shim_declines noCalls (VObj 0) "later" "Object"
                defaultOptions settingsState) as [_ Hmissing].
    apply Hmissing; [reflexivity | discriminate | reflexivity].
Defined.

(** X11, on the sample application: [player.onplay = null] on the traced
    player, whose [onplay] mutator is the function at location 22. *)
Lemma cleared_listener_is_neutralised_witness :
  exists corresponding st1,
    call sampleNative 4 (VObj 22) (VObj 10) [VNull] (snd tracedPlayer)
    = (run call sampleNative 3 (VObj 7) (VObj 10) [VObj 27]; ret VUndefined) st1
    /\ closureOf st1 (VObj 26) = Some Noop
    /\ closureOf st1 (VObj 27)
       = Some (ListenerShim (VObj 10) (VObj 26) "Player" "play" defaultOptions
                            corresponding)
    /\ logged st1 = [].
Proof.
  destruct (cleared_listener_is_neutralised sampleNative 3 (VObj 22) (VObj 7)
              (VObj 10) (VObj 10) "Player" "play" defaultOptions VNull
              (snd tracedPlayer))
    as (corresponding & st1 & Hcall & Hnoop & Hshim & Hlog & _);
    [vm_compute; reflexivity | reflexivity |].
  exists corresponding, st1.
  split; [exact Hcall |]. split; [exact Hnoop |]. split; [exact Hshim |].
  rewrite Hlog. vm_compute. reflexivity.
Defined.

(** X12, on the sample application: the traced player already observes
    [play] (it has an [onplay] member); listening for [play] is forwarded as
    it is, listening for [pause] first adds the name and registers the
    wrapper at location 27. *)
Lemma dynamic_listener_discovery_witness :
  call sampleNative 4 (VObj 25) (VObj 10) [VStr "play"; VObj 3] (snd tracedPlayer)
  = call sampleNative 3 (VObj 2) (VObj 10) [VStr "play"; VObj 3]
         (snd tracedPlayer)
  /\ exists corresponding st1,
       call sampleNative 4 (VObj 25) (VObj 10) [VStr "pause"; VObj 3]
            (snd tracedPlayer)
       = (run call sampleNative 3 (VObj 2) (VObj 10) [VStr "pause"; VObj 27];
          call sampleNative 3 (VObj 2) (VObj 10) [VStr "pause"; VObj 3]) st1
       /\ observedEvents st1 (VObj 10) = [VStr "play"; VStr "pause"]
       /\ closureOf st1 (VObj 27)
          = Some (ListenerShim (VObj 10) (VObj 26) "Player" "pause"
                               defaultOptions corresponding).
Proof.
  split.
  - destruct (dynamic_listener_discovery sampleNative 3 (VObj 25) (VObj 2)
                (VObj 10) "Player" defaultOptions 10 20 tracedPlayerObject
                (mkObj None [] (KSet [VStr "play"])) [VStr "play"] true true true
                (VStr "play") [VObj 3] (snd tracedPlayer))
      as [Hknown _]; [vm_compute; reflexivity .. |].
    apply Hknown. reflexivity.
  - destruct (dynamic_listener_discovery sampleNative 3 (VObj 25) (VObj 2)
                (VObj 10) "Player" defaultOptions 10 20 tracedPlayerObject
                (mkObj None [] (KSet [VStr "play"])) [VStr "play"] true true true
                (VStr "pause") [VObj 3] (snd tracedPlayer))
      as [_ Hnew]; [vm_compute; reflexivity .. |].
    destruct (Hnew "pause") as (corresponding & st1 & Hcall & Hset & _ & Hshim & _);
      [reflexivity .. |].
    exists corresponding, st1. split; [exact Hcall |]. split; [exact Hset |].
    exact Hshim.
Defined.


(** X14: [onplay] names the event [play]. *)
Lemma listener_property_event_name_witness : "on" +:+ stripOn "onplay" = "onplay".
Proof.
  destruct listener_property_event_name as (_ & H & _). apply H. reflexivity.
Defined.



(** X18, on the sample application: shimming [echo] of the first player in
    place; the shim is the next object allocated, at location 12. *)
Lemma shimMethod_installs_marked_shim_witness :
  exists st',
    _shimMethod noCalls (VObj 10) (VObj 10) "echo" "Player" defaultOptions
                twoPlayers
    = (Ret tt, st')
    /\ closureOf st' (VObj 12)
       = Some (MethodShim (VObj 4) "echo" "Player" defaultOptions)
    /\ carriesMarker st' (VObj 12) = true
    /\ findProperty st' (VObj 10) "echo" = Some (PData (VObj 12) true true true).
Proof.
  destruct (shimMethod_installs_marked_shim noCalls 10 untracedPlayer (VObj 10)
              "echo" "Player" defaultOptions twoPlayers (VObj 4) true true true)
    as (st' & Hshim & Hclosure & Hmarked & Hfind & _);
    [vm_compute; reflexivity | vm_compute; reflexivity | |].
  - left. exists (VObj 4), true, true. vm_compute. reflexivity.
  - exists st'. split; [exact Hshim |]. split; [exact Hclosure |].
    split; [exact Hmarked | exact Hfind].
Defined.

(** X19, on the sample application: the wrapper stored by [onplay] when the
    player was traced (location 24, around the no-op at 23) is fired. *)
Lemma listener_wrapper_forwards_witness :
  call sampleNative 3 (VObj 24) (VObj 10) [VStr "played"] (snd tracedPlayer)
  = call sampleNative 2 (VObj 23) (VObj 10) [VStr "played"]
         (emit (eventRecord 1000 (VObj 10) (VStr "Player_1") "Player" "play"
                            (VStr "played") None) (snd tracedPlayer)).
Proof.
  destruct (listener_wrapper_forwards sampleNative 2 (VObj 24) (VObj 10) (VObj 23)
              (VObj 10) (VStr "played") "Player" "play" defaultOptions CorrNull
              (snd tracedPlayer) (snd tracedPlayer) (VStr "Player_1"))
    as [Hfunction _];
    [vm_compute; reflexivity | now left | vm_compute; reflexivity |].
  apply (Hfunction 23); [reflexivity | vm_compute; reflexivity].
Defined.

(** X20: the member [ready] is observed; when the host fulfils the promise
    and the jobs run, the event is logged. *)
Lemma promise_member_observed_witness :
  exists st',
    _shimMember (handlers sampleNative 2) (VObj 0) (VObj 0) "ready" "Loader"
                defaultOptions readyState
    = (Ret tt, st')
    /\ logged st' = []
    /\ map Log.eventName
           (logged (snd ((run fulfillPromise 1 (VStr "yes");
                          runJobs sampleNative 5) st')))
       = [Some "ready Promise resolved"].
Proof.
  destruct (promise_member_observed sampleNative 1 (VObj 0) (VObj 0) "ready"
              "Loader" defaultOptions readyState 1 (promiseObject (Pending []))
              [] true true true)
    as (st' & Hshim & Hlog & _);
    [reflexivity | reflexivity | reflexivity | reflexivity | repeat split |].
  pose proof Hshim as E. vm_compute in E. injection E as E. subst st'.
  eexists. split; [exact Hshim |]. split; [exact Hlog |].
  vm_compute. reflexivity.
Defined.

(** X21, on the sample application: [new Player()] through a replacement
    constructor configured with a member that does not exist. *)
Lemma replacement_constructor_instrumentation_failure_witness :
  exists st',
    call sampleNative 9 (VObj 10) VUndefined [] laterClassState
    = (Throw TypeError, st')
    /\ map Log.threw (logged st') = [Some TypeError]
    /\ map Log.instance (logged st') = [None].
Proof.
  pose (st2 := snd (construct (handlers sampleNative 8) (VObj Player) []
                              laterClassState)).
  pose (st3 := snd (traceObject (handlers sampleNative 8) (VObj 11)
                                (complete (assign defaultOptions laterOptions))
                                st2)).
  destruct (replacement_constructor_instrumentation_failure sampleNative 8
              (VObj 10) (VObj Player) VUndefined
              (assign defaultOptions laterOptions) [] laterClassState
              laterClassState st2 (VStr "Player") (VObj 11))
    as [Hthrows _]; [vm_compute; reflexivity .. |].
  eexists. split.
  - apply (Hthrows TypeError st3). vm_compute. reflexivity.
  - split; vm_compute; reflexivity.
Defined.

(** X22, on the sample application: [traceMember(player, 'echo', {})]
    replaces the first player's [echo] by the shim at location 12;
    with [{inPlace: false}] the shim is at 13, after the dropped wrapper,
    and the player is left as it was. *)
Lemma traceMember_returns_method_shim_witness :
  (exists st',
      traceMember noCalls (VObj 10) "echo" noOptions twoPlayers
      = (Ret (VObj 12), st')
      /\ findProperty st' (VObj 10) "echo" = Some (PData (VObj 12) true true true))
  /\ (exists st',
         traceMember noCalls (VObj 10) "echo" wrapperOptions twoPlayers
         = (Ret (VObj 13), st')
         /\ closureOf st' (VObj 13)
            = Some (MethodShim (VObj 4) "echo" "Player"
                               (assign defaultOptions wrapperOptions))
         /\ heap st' !! 10 = Some untracedPlayer).
Proof.
  split.
  - destruct (traceMember_returns_method_shim noCalls 10 0 untracedPlayer
                (VObj 1) (VStr "Player") (VObj 4) "echo" noOptions twoPlayers
                true true true true false true true false true)
      as [Hplace _]; try (vm_compute; reflexivity).
    destruct Hplace as (st' & Hrun & _ & _ & Hfind & _);
      try (vm_compute; reflexivity).
    exists st'. split; [exact Hrun | exact Hfind].
  - destruct (traceMember_returns_method_shim noCalls 10 0 untracedPlayer
                (VObj 1) (VStr "Player") (VObj 4) "echo" wrapperOptions
                twoPlayers true true true true false true true false true)
      as [_ Hwrapper]; try (vm_compute; reflexivity).
    destruct Hwrapper as (st' & Hrun & Hclosure & _ & Hframe & _);
      try (vm_compute; reflexivity).
    exists st'. split; [exact Hrun |]. split; [exact Hclosure |].
    rewrite Hframe by (vm_compute; lia). vm_compute. reflexivity.
Defined.

(** X23, on the sample application: after
    [tracePrototype(Player, 'echo', {})] both players made earlier find the
    shim at location 12 under [echo]. *)
Lemma tracePrototype_reaches_instances_witness :
  exists st',
    tracePrototype noCalls (VObj Player) "echo" noOptions twoPlayers
    = (Ret (VObj 12), st')
    /\ findProperty st' (VObj 10) "echo" = Some (PData (VObj 12) true true true)
    /\ findProperty st' (VObj 11) "echo" = Some (PData (VObj 12) true true true).
Proof.
  destruct (tracePrototype_reaches_instances noCalls (VObj Player) 0
              (nth 0 sampleHeap untracedPlayer) (VStr "Player") (VObj 4) "echo"
              noOptions twoPlayers true true true false true true false true)
    as (st' & Hrun & _ & _ & Hinstances & _); try (vm_compute; reflexivity).
  exists st'. split; [exact Hrun |]. split.
  - rewrite (Hinstances 10 untracedPlayer); vm_compute; reflexivity.
  - rewrite (Hinstances 11 untracedPlayer); vm_compute; reflexivity.
Defined.
